(** * Wallet challenge-response authentication (Xelma backend)

    A shallow embedding of [utils/challenge.util.ts], of the two handlers
    of [routes/auth.routes.ts] ([POST /api/auth/challenge] and
    [POST /api/auth/connect]) and of [middleware/auth.middleware.ts], with
    the properties of the authentication protocol proved over it.

    Conventions.
    - A JavaScript [Date] is its time value: milliseconds since the epoch,
      an integer ([Z]).
    - A field of a request body is [option string]: [None] is a field that
      is missing from the JSON body.
    - The two Prisma tables are lists of rows, in insertion order.
    - Every reading of the clock, every identifier the database generates
      and the bytes of the random source are inputs of the handlers.
    - The time zone of the process is an input too: the function that
      gives the offset of local time, which ECMA-262 leaves to the host. *)

From Stdlib Require Import ZArith List String Ascii Bool Lia.
From Stdlib Require Import Numbers.DecimalString Strings.Byte.
From Stdlib Require DecimalZ DecimalPos.
Import ListNotations.

Local Open Scope Z_scope.
Local Open Scope string_scope.

(* ===================================================================== *)
(** * JavaScript primitives used by the code *)
(* ===================================================================== *)

Module JS.

(** [`${n}`] for an integral Number: its decimal digits, with a minus sign
    when negative. *)
Definition numberToString (n : Z) : string :=
  NilZero.string_of_int (Z.to_int n).

(** One hexadecimal digit, lower case, as [Buffer.toString('hex')] prints. *)
Definition hexDigit (n : N) : ascii :=
  match n with
  | 0%N => "0" | 1%N => "1" | 2%N => "2" | 3%N => "3"
  | 4%N => "4" | 5%N => "5" | 6%N => "6" | 7%N => "7"
  | 8%N => "8" | 9%N => "9" | 10%N => "a" | 11%N => "b"
  | 12%N => "c" | 13%N => "d" | 14%N => "e" | _ => "f"
  end%char.

(** The value of a hexadecimal digit (the inverse of [hexDigit]). *)
Definition hexValue (c : ascii) : N :=
  let n := N_of_ascii c in
  if (n <? 58)%N then (n - 48)%N else (n - 87)%N.

Definition hexOfByte (b : byte) : string :=
  let n := Byte.to_N b in
  String (hexDigit (n / 16)) (String (hexDigit (n mod 16)) EmptyString).

(** [buf.toString('hex')] *)
Fixpoint toStringHex (buf : list byte) : string :=
  match buf with
  | [] => EmptyString
  | b :: rest => hexOfByte b ++ toStringHex rest
  end.

(** Decoder of a hexadecimal string, two digits per byte; used to show that
    the encoding loses nothing. *)
Fixpoint fromStringHex (s : string) : option (list byte) :=
  match s with
  | EmptyString => Some []
  | String c1 (String c2 rest) =>
      match Byte.of_N (16 * hexValue c1 + hexValue c2), fromStringHex rest with
      | Some b, Some bs => Some (b :: bs)
      | _, _ => None
      end
  | String _ EmptyString => None
  end.

(** The characters [Buffer.toString('hex')] can print. *)
Definition isHexDigit (c : ascii) : bool :=
  let n := N_of_ascii c in
  ((48 <=? n) && (n <=? 57) || (97 <=? n) && (n <=? 102))%N.

Fixpoint everyChar (p : ascii -> bool) (s : string) : bool :=
  match s with
  | EmptyString => true
  | String c rest => p c && everyChar p rest
  end.

(** ** The time arithmetic of ECMAScript's [Date] (ECMA-262, 21.4.1)

    [LocalTZA t isUTC] is the offset of the local time zone in milliseconds
    (ECMA-262, 21.4.1.24). With [isUTC = true], [t] is a UTC time value and
    the result is the offset in force at that instant; with [isUTC = false],
    [t] is a local time value and the result is the offset under which that
    local time is read (for a local time that a transition skips or repeats,
    the offset before the transition). *)
Definition TimeZone : Type := Z -> bool -> Z.

(** A zone without transitions, as UTC ([fixedZone 0]). *)
Definition fixedZone (offset : Z) : TimeZone := fun _ _ => offset.

(** A zone with one transition at the UTC instant [at_]: offset [before]
    until then, [after] from then on. A local time reads under [before]
    when it is earlier than the local time the new offset starts at, or
    is skipped or repeated by the transition. *)
Definition zoneWithTransition (at_ before after : Z) : TimeZone :=
  fun t isUTC =>
    if isUTC then (if t <? at_ then before else after)%Z
    else (if t <? at_ + Z.max before after then before else after)%Z.

Section DateArithmetic.

Variable LocalTZA : TimeZone.

Definition msPerSecond : Z := 1000.
Definition msPerMinute : Z := 60000.
Definition msPerHour : Z := 3600000.
Definition msPerDay : Z := 86400000.

Definition Day (t : Z) : Z := t / msPerDay.
Definition HourFromTime (t : Z) : Z := (t / msPerHour) mod 24.
Definition MinFromTime (t : Z) : Z := (t / msPerMinute) mod 60.
Definition SecFromTime (t : Z) : Z := (t / msPerSecond) mod 60.
Definition msFromTime (t : Z) : Z := t mod msPerSecond.

Definition MakeTime (hour min sec ms : Z) : Z :=
  hour * msPerHour + min * msPerMinute + sec * msPerSecond + ms.
Definition MakeDate (day time : Z) : Z := day * msPerDay + time.

Definition LocalTime (t : Z) : Z := t + LocalTZA t true.
Definition UTC (t : Z) : Z := t - LocalTZA t false.

(** [date.getMinutes()] *)
Definition getMinutes (t : Z) : Z := MinFromTime (LocalTime t).

(** [date.setMinutes(min)]: the new time value of the date. *)
Definition setMinutes (t min : Z) : Z :=
  let lt := LocalTime t in
  UTC (MakeDate (Day lt)
                (MakeTime (HourFromTime lt) min (SecFromTime lt) (msFromTime lt))).

End DateArithmetic.

End JS.

(* ===================================================================== *)
(** * utils/challenge.util.ts *)
(* ===================================================================== *)

(** The random generator of the system, as one call of [crypto.randomBytes]
    sees it: the byte it yields at each position. *)
Definition RandomSource : Type := nat -> byte.

Module crypto.
(** [crypto.randomBytes(size)]: the first [size] bytes of the source. *)
Definition randomBytes (size : nat) (source : RandomSource) : list byte :=
  map source (seq 0 size).
End crypto.

Definition CHALLENGE_EXPIRY_MINUTES : Z := 5.

(** [generateChallenge()], with its two readings made explicit:
    [timestamp] is [Date.now()] and [source] is what [crypto.randomBytes]
    draws from. *)
Definition generateChallenge (timestamp : Z) (source : RandomSource) : string :=
  let randomBytes := JS.toStringHex (crypto.randomBytes 32 source) in
  "xelma_auth_" ++ JS.numberToString timestamp ++ "_" ++ randomBytes.

(** [getChallengeExpiry()]; [now] is the reading of [new Date()]. *)
Definition getChallengeExpiry (LocalTZA : JS.TimeZone) (now : Z) : Z :=
  JS.setMinutes LocalTZA now (JS.getMinutes LocalTZA now + CHALLENGE_EXPIRY_MINUTES).

(** [isChallengeExpired(expiresAt)]; [now] is the reading of [new Date()]. *)
Definition isChallengeExpired (now : Z) (expiresAt : Z) : bool :=
  (now >? expiresAt)%Z.

(** [getChallengeExpirySeconds()] *)
Definition getChallengeExpirySeconds : Z := CHALLENGE_EXPIRY_MINUTES * 60.

(* ===================================================================== *)
(** * types/auth.types.ts and the rows of the two Prisma tables *)
(* ===================================================================== *)

Module ChallengeRequestBody.
Record t := { walletAddress : option string }.
End ChallengeRequestBody.

Module ConnectRequestBody.
Record t := {
  walletAddress : option string;
  challenge : option string;
  signature : option string
}.
End ConnectRequestBody.

(** A row of [prisma.authChallenge]; [usedAt] and [userId] are nullable. *)
Module AuthChallenge.
Record t := {
  id : string;
  challenge : string;
  walletAddress : string;
  expiresAt : Z;
  isUsed : bool;
  usedAt : option Z;
  userId : option string
}.

Definition markUsed (at_ : Z) (c : t) : t :=
  {| id := id c; challenge := challenge c; walletAddress := walletAddress c;
     expiresAt := expiresAt c; isUsed := true; usedAt := Some at_;
     userId := userId c |}.

Definition linkUser (uid : string) (c : t) : t :=
  {| id := id c; challenge := challenge c; walletAddress := walletAddress c;
     expiresAt := expiresAt c; isUsed := isUsed c; usedAt := usedAt c;
     userId := Some uid |}.
End AuthChallenge.

(** A row of [prisma.user]; [lastLoginAt] is nullable. *)
Module User.
Record t := {
  id : string;
  walletAddress : string;
  publicKey : string;
  createdAt : Z;
  lastLoginAt : option Z
}.

Definition setLastLoginAt (now : Z) (u : t) : t :=
  {| id := id u; walletAddress := walletAddress u; publicKey := publicKey u;
     createdAt := createdAt u; lastLoginAt := Some now |}.
End User.

(** What a handler sends: [res.status(code).json(body)]. Dates of a body are
    kept as time values ([toISOString] is not modelled). *)
Inductive Body :=
| ErrorBody (error message : string)
| ChallengeResponse (challenge : string) (expiresAt : Z)
| ConnectResponse (token : string) (user_id user_walletAddress : string)
                  (user_createdAt user_lastLoginAt : Z).

Record Response := { status : Z; body : Body }.

Definition json (code : Z) (b : Body) : Response := {| status := code; body := b |}.

(* ===================================================================== *)
(** * The database and the monad of the awaited Prisma calls *)
(* ===================================================================== *)

Record DB := {
  authChallenges : list AuthChallenge.t;
  users : list User.t
}.

(** A call either resolves with a value or rejects (throws at the [await]).
    The database keeps whatever was written before a rejection. *)
Inductive Outcome (A : Type) :=
| Resolved (a : A)
| Rejected.
Arguments Resolved {A} a.
Arguments Rejected {A}.

Definition Prisma (A : Type) : Type := DB -> Outcome A * DB.

Definition ret {A} (a : A) : Prisma A := fun db => (Resolved a, db).

Definition bind {A B} (m : Prisma A) (k : A -> Prisma B) : Prisma B :=
  fun db =>
    match m db with
    | (Resolved a, db') => k a db'
    | (Rejected, db') => (Rejected, db')
    end.

Notation "x <- m ;; k" := (bind m (fun x => k))
  (at level 61, m at next level, right associativity).
Notation "'await' m ;; k" := (bind m (fun _ => k))
  (at level 61, m at next level, right associativity).

Module prisma.

Definition withChallenges (db : DB) (rows : list AuthChallenge.t) : DB :=
  {| authChallenges := rows; users := users db |}.
Definition withUsers (db : DB) (rows : list User.t) : DB :=
  {| authChallenges := authChallenges db; users := rows |}.

Definition hasId (i : string) (c : AuthChallenge.t) : bool :=
  AuthChallenge.id c =? i.
Definition hasChallenge (tok : string) (c : AuthChallenge.t) : bool :=
  AuthChallenge.challenge c =? tok.
Definition hasWallet (w : string) (u : User.t) : bool :=
  User.walletAddress u =? w.
Definition hasUserId (i : string) (u : User.t) : bool :=
  User.id u =? i.

(** [prisma.authChallenge.deleteMany({ where })] *)
Definition authChallenge_deleteMany (where_ : AuthChallenge.t -> bool) : Prisma unit :=
  fun db =>
    (Resolved tt,
     withChallenges db (filter (fun c => negb (where_ c)) (authChallenges db))).

(** [prisma.authChallenge.create({ data })]. [newId] is the identifier the
    database generates. The call rejects when the primary key or the
    unique [challenge] column would be duplicated. *)
Definition authChallenge_create (newId : string)
    (challenge walletAddress : string) (expiresAt : Z) (isUsed : bool)
    : Prisma AuthChallenge.t :=
  fun db =>
    if existsb (hasId newId) (authChallenges db)
       || existsb (hasChallenge challenge) (authChallenges db)
    then (Rejected, db)
    else
      let row := {| AuthChallenge.id := newId;
                    AuthChallenge.challenge := challenge;
                    AuthChallenge.walletAddress := walletAddress;
                    AuthChallenge.expiresAt := expiresAt;
                    AuthChallenge.isUsed := isUsed;
                    AuthChallenge.usedAt := None;
                    AuthChallenge.userId := None |} in
      (Resolved row, withChallenges db (authChallenges db ++ [row])).

(** [prisma.authChallenge.findUnique({ where: { challenge } })] *)
Definition authChallenge_findUnique (challenge : string)
    : Prisma (option AuthChallenge.t) :=
  fun db => (Resolved (find (hasChallenge challenge) (authChallenges db)), db).

(** [prisma.authChallenge.delete({ where: { id } })]; rejects when no row
    has that id. *)
Definition authChallenge_delete (i : string) : Prisma AuthChallenge.t :=
  fun db =>
    match find (hasId i) (authChallenges db) with
    | None => (Rejected, db)
    | Some row =>
        (Resolved row,
         withChallenges db (filter (fun c => negb (hasId i c)) (authChallenges db)))
    end.

(** [prisma.authChallenge.update({ where: { id }, data })]; rejects when no
    row has that id. *)
Definition authChallenge_update (i : string)
    (data : AuthChallenge.t -> AuthChallenge.t) : Prisma AuthChallenge.t :=
  fun db =>
    match find (hasId i) (authChallenges db) with
    | None => (Rejected, db)
    | Some row =>
        (Resolved (data row),
         withChallenges db
           (map (fun c => if hasId i c then data c else c) (authChallenges db)))
    end.

(** [prisma.user.findUnique({ where: { walletAddress } })] *)
Definition user_findUnique (walletAddress : string) : Prisma (option User.t) :=
  fun db => (Resolved (find (hasWallet walletAddress) (users db)), db).

(** [prisma.user.create({ data })]. [newId] is the identifier the database
    generates; the call rejects when the primary key or the unique
    [walletAddress] column would be duplicated.

    The handler passes no [createdAt]: the column is filled by its default
    (the Prisma schema is not among the sources), taken here as
    [insertedAt], a reading of the store's clock at insertion. *)
Definition user_create (newId : string) (insertedAt : Z)
    (walletAddress publicKey : string) (lastLoginAt : Z) : Prisma User.t :=
  fun db =>
    if existsb (hasUserId newId) (users db)
       || existsb (hasWallet walletAddress) (users db)
    then (Rejected, db)
    else
      let row := {| User.id := newId;
                    User.walletAddress := walletAddress;
                    User.publicKey := publicKey;
                    User.createdAt := insertedAt;
                    User.lastLoginAt := Some lastLoginAt |} in
      (Resolved row, withUsers db (users db ++ [row])).

(** [prisma.user.update({ where: { walletAddress }, data })]; rejects when
    no row has that address. *)
Definition user_update (walletAddress : string) (data : User.t -> User.t)
    : Prisma User.t :=
  fun db =>
    match find (hasWallet walletAddress) (users db) with
    | None => (Rejected, db)
    | Some row =>
        (Resolved (data row),
         withUsers db
           (map (fun u => if hasWallet walletAddress u then data u else u) (users db)))
    end.

End prisma.

(* ===================================================================== *)
(** * routes/auth.routes.ts *)
(* ===================================================================== *)

(** [!v] for a body field typed [string]: missing, or the empty string. *)
Definition falsy (v : option string) : bool :=
  match v with
  | None => true
  | Some s => s =? ""
  end.

(** The string held by a field that passed the [!v] test. *)
Definition valueOf (v : option string) : string :=
  match v with
  | None => ""
  | Some s => s
  end.

(** What one execution of [POST /challenge] reads from outside. *)
Record ChallengeEnv := {
  ce_purgeNow : Z;            (* [new Date()] in the [deleteMany] filter *)
  ce_timestamp : Z;           (* [Date.now()] in [generateChallenge] *)
  ce_randomBytes : RandomSource; (* what [crypto.randomBytes(32)] draws from *)
  ce_expiryNow : Z;           (* [new Date()] in [getChallengeExpiry] *)
  ce_newId : string           (* id generated for the new row *)
}.

(** What one execution of [POST /connect] reads from outside. *)
Record ConnectEnv := {
  ne_expiryCheck : Z;  (* [new Date()] in [isChallengeExpired] *)
  ne_usedAt : Z;       (* [new Date()] of [usedAt] *)
  ne_now : Z;          (* [const now = new Date()] *)
  ne_createdAt : Z;    (* the store's clock when it stamps [createdAt] *)
  ne_cleanupNow : Z;   (* [Date.now()] of the 24-hour cutoff *)
  ne_newUserId : string (* id generated when a user row is created *)
}.

Definition validationError (message : string) : Response :=
  json 400 (ErrorBody "Validation Error" message).
Definition authenticationError (message : string) : Response :=
  json 401 (ErrorBody "Authentication Error" message).
Definition internalError (message : string) : Response :=
  json 500 (ErrorBody "Internal Server Error" message).

Section Routes.

(** The collaborators imported from [services/stellar.service] and
    [utils/jwt.util], and the time zone of the process. *)
Variable isValidStellarAddress : string -> bool.
Variable verifySignature : string -> string -> string -> bool.
Variable generateToken : string -> string -> string.
Variable LocalTZA : JS.TimeZone.

(** The [where] of the housekeeping [deleteMany] of [POST /challenge]. *)
Definition expiredOf (walletAddress : string) (now : Z) (c : AuthChallenge.t) : bool :=
  (AuthChallenge.walletAddress c =? walletAddress)
  && (AuthChallenge.expiresAt c <? now)%Z.

(** The [where] of the housekeeping [deleteMany] of [POST /connect]. *)
Definition oldUsedOf (walletAddress : string) (cutoff : Z) (c : AuthChallenge.t) : bool :=
  (AuthChallenge.walletAddress c =? walletAddress)
  && AuthChallenge.isUsed c
  && match AuthChallenge.usedAt c with
     | Some u => (u <? cutoff)%Z
     | None => false
     end.

(** The body of the [try] of [POST /challenge]. *)
Definition challenge_try (env : ChallengeEnv) (req : ChallengeRequestBody.t)
    : Prisma Response :=
  let walletAddress := valueOf (ChallengeRequestBody.walletAddress req) in
  if falsy (ChallengeRequestBody.walletAddress req) then
    ret (validationError "walletAddress is required")
  else if negb (isValidStellarAddress walletAddress) then
    ret (validationError "Invalid Stellar wallet address format")
  else
    await prisma.authChallenge_deleteMany (expiredOf walletAddress (ce_purgeNow env)) ;;
    let challenge := generateChallenge (ce_timestamp env) (ce_randomBytes env) in
    let expiresAt := getChallengeExpiry LocalTZA (ce_expiryNow env) in
    await prisma.authChallenge_create (ce_newId env) challenge walletAddress expiresAt false ;;
    ret (json 200 (ChallengeResponse challenge expiresAt)).

(** [POST /api/auth/challenge]: the [try] and its [catch]. *)
Definition post_challenge (env : ChallengeEnv) (req : ChallengeRequestBody.t)
    (db : DB) : Response * DB :=
  match challenge_try env req db with
  | (Resolved res, db') => (res, db')
  | (Rejected, db') =>
      (internalError "Failed to generate authentication challenge", db')
  end.

(** The body of the [try] of [POST /connect]. *)
Definition connect_try (env : ConnectEnv) (req : ConnectRequestBody.t)
    : Prisma Response :=
  let walletAddress := valueOf (ConnectRequestBody.walletAddress req) in
  let challenge := valueOf (ConnectRequestBody.challenge req) in
  let signature := valueOf (ConnectRequestBody.signature req) in
  if falsy (ConnectRequestBody.walletAddress req)
     || falsy (ConnectRequestBody.challenge req)
     || falsy (ConnectRequestBody.signature req) then
    ret (validationError "walletAddress, challenge, and signature are required")
  else if negb (isValidStellarAddress walletAddress) then
    ret (validationError "Invalid Stellar wallet address format")
  else
    found <- prisma.authChallenge_findUnique challenge ;;
    match found with
    | None => ret (authenticationError "Invalid or expired challenge")
    | Some authChallenge =>
        if negb (AuthChallenge.walletAddress authChallenge =? walletAddress) then
          ret (authenticationError "Challenge does not match wallet address")
        else if isChallengeExpired (ne_expiryCheck env)
                                   (AuthChallenge.expiresAt authChallenge) then
          await prisma.authChallenge_delete (AuthChallenge.id authChallenge) ;;
          ret (authenticationError "Challenge has expired. Please request a new one.")
        else if AuthChallenge.isUsed authChallenge then
          ret (authenticationError "Challenge has already been used")
        else
          let isValidSignature := verifySignature walletAddress challenge signature in
          if negb isValidSignature then
            ret (authenticationError "Invalid signature")
          else
            await prisma.authChallenge_update (AuthChallenge.id authChallenge)
                    (AuthChallenge.markUsed (ne_usedAt env)) ;;
            existing <- prisma.user_findUnique walletAddress ;;
            let now := ne_now env in
            user <- match existing with
                    | None =>
                        prisma.user_create (ne_newUserId env) (ne_createdAt env)
                          walletAddress walletAddress now
                    | Some _ =>
                        prisma.user_update walletAddress (User.setLastLoginAt now)
                    end ;;
            await prisma.authChallenge_update (AuthChallenge.id authChallenge)
                    (AuthChallenge.linkUser (User.id user)) ;;
            let token := generateToken (User.id user) (User.walletAddress user) in
            await prisma.authChallenge_deleteMany
                    (oldUsedOf walletAddress (ne_cleanupNow env - 24 * 60 * 60 * 1000)) ;;
            ret (json 200
                   (ConnectResponse token (User.id user) (User.walletAddress user)
                      (User.createdAt user)
                      (match User.lastLoginAt user with
                       | Some t => t
                       | None => now
                       end)))
    end.

(** [POST /api/auth/connect]: the [try] and its [catch]. *)
Definition post_connect (env : ConnectEnv) (req : ConnectRequestBody.t)
    (db : DB) : Response * DB :=
  match connect_try env req db with
  | (Resolved res, db') => (res, db')
  | (Rejected, db') => (internalError "Failed to authenticate wallet", db')
  end.

(** ** The handler of [POST /connect] as the event loop runs it

    Between two [await]s the handler runs without interruption; at an
    [await] other requests may run. A [ConnectTask] is the continuation of
    one execution at such a point, with the local variables it has bound;
    one [connect_step] performs the awaited call and the code after it, up
    to the next [await] or to the response. *)
Inductive ConnectTask :=
| AtStart (req : ConnectRequestBody.t)
| AtFound (walletAddress challenge signature : string)
          (found : option AuthChallenge.t)
| AtVerified (walletAddress : string) (authChallenge : AuthChallenge.t)
             (isValidSignature : bool)
| AtMarked (walletAddress : string) (authChallenge : AuthChallenge.t)
| AtUserFound (walletAddress : string) (authChallenge : AuthChallenge.t)
              (existing : option User.t)
| AtUserSaved (walletAddress : string) (authChallenge : AuthChallenge.t)
              (user : User.t)
| AtLinked (walletAddress : string) (authChallenge : AuthChallenge.t)
           (user : User.t)
| Responded (res : Response).

(** Continue with [k] when the awaited call resolves, answer 500 (the
    [catch]) when it rejects. *)
Definition awaited {A} (m : Prisma A) (k : A -> ConnectTask) (db : DB)
    : ConnectTask * DB :=
  match m db with
  | (Resolved a, db') => (k a, db')
  | (Rejected, db') =>
      (Responded (internalError "Failed to authenticate wallet"), db')
  end.

Definition connect_step (env : ConnectEnv) (task : ConnectTask) (db : DB)
    : ConnectTask * DB :=
  match task with
  | AtStart req =>
      let walletAddress := valueOf (ConnectRequestBody.walletAddress req) in
      let challenge := valueOf (ConnectRequestBody.challenge req) in
      let signature := valueOf (ConnectRequestBody.signature req) in
      if falsy (ConnectRequestBody.walletAddress req)
         || falsy (ConnectRequestBody.challenge req)
         || falsy (ConnectRequestBody.signature req) then
        (Responded (validationError
           "walletAddress, challenge, and signature are required"), db)
      else if negb (isValidStellarAddress walletAddress) then
        (Responded (validationError "Invalid Stellar wallet address format"), db)
      else
        awaited (prisma.authChallenge_findUnique challenge)
                (AtFound walletAddress challenge signature) db
  | AtFound walletAddress challenge signature found =>
      match found with
      | None =>
          (Responded (authenticationError "Invalid or expired challenge"), db)
      | Some authChallenge =>
          if negb (AuthChallenge.walletAddress authChallenge =? walletAddress) then
            (Responded (authenticationError
               "Challenge does not match wallet address"), db)
          else if isChallengeExpired (ne_expiryCheck env)
                                     (AuthChallenge.expiresAt authChallenge) then
            awaited (prisma.authChallenge_delete (AuthChallenge.id authChallenge))
                    (fun _ => Responded (authenticationError
                       "Challenge has expired. Please request a new one.")) db
          else if AuthChallenge.isUsed authChallenge then
            (Responded (authenticationError "Challenge has already been used"), db)
          else
            (AtVerified walletAddress authChallenge
               (verifySignature walletAddress challenge signature), db)
      end
  | AtVerified walletAddress authChallenge isValidSignature =>
      if negb isValidSignature then
        (Responded (authenticationError "Invalid signature"), db)
      else
        awaited (prisma.authChallenge_update (AuthChallenge.id authChallenge)
                   (AuthChallenge.markUsed (ne_usedAt env)))
                (fun _ => AtMarked walletAddress authChallenge) db
  | AtMarked walletAddress authChallenge =>
      awaited (prisma.user_findUnique walletAddress)
              (AtUserFound walletAddress authChallenge) db
  | AtUserFound walletAddress authChallenge existing =>
      let now := ne_now env in
      awaited (match existing with
               | None =>
                   prisma.user_create (ne_newUserId env) (ne_createdAt env)
                     walletAddress walletAddress now
               | Some _ =>
                   prisma.user_update walletAddress (User.setLastLoginAt now)
               end)
              (AtUserSaved walletAddress authChallenge) db
  | AtUserSaved walletAddress authChallenge user =>
      awaited (prisma.authChallenge_update (AuthChallenge.id authChallenge)
                 (AuthChallenge.linkUser (User.id user)))
              (fun _ => AtLinked walletAddress authChallenge user) db
  | AtLinked walletAddress authChallenge user =>
      let now := ne_now env in
      let token := generateToken (User.id user) (User.walletAddress user) in
      awaited (prisma.authChallenge_deleteMany
                 (oldUsedOf walletAddress (ne_cleanupNow env - 24 * 60 * 60 * 1000)))
              (fun _ => Responded (json 200
                 (ConnectResponse token (User.id user) (User.walletAddress user)
                    (User.createdAt user)
                    (match User.lastLoginAt user with
                     | Some t => t
                     | None => now
                     end)))) db
  | Responded res => (Responded res, db)
  end.

(** [n] steps of one execution, nothing else running in between. *)
Fixpoint connect_steps (n : nat) (env : ConnectEnv) (task : ConnectTask) (db : DB)
    : ConnectTask * DB :=
  match n with
  | O => (task, db)
  | S n' =>
      let (task', db') := connect_step env task db in
      connect_steps n' env task' db'
  end.

(** Executions in flight, each with its own readings; they share the
    database. *)
Record Execution := { ex_env : ConnectEnv; ex_task : ConnectTask }.

(** The execution at position [i] makes one step. *)
Fixpoint stepAt (i : nat) (pool : list Execution) (db : DB)
    : list Execution * DB :=
  match pool with
  | [] => ([], db)
  | ex :: rest =>
      match i with
      | O =>
          let (task', db') := connect_step (ex_env ex) (ex_task ex) db in
          ({| ex_env := ex_env ex; ex_task := task' |} :: rest, db')
      | S i' =>
          let (rest', db') := stepAt i' rest db in
          (ex :: rest', db')
      end
  end.

(** The event loop resumes the executions in the order [schedule] gives. *)
Fixpoint interleave (schedule : list nat) (pool : list Execution) (db : DB)
    : list Execution * DB :=
  match schedule with
  | [] => (pool, db)
  | i :: later =>
      let (pool', db') := stepAt i pool db in
      interleave later pool' db'
  end.

(** The statuses of the executions that have responded. *)
Definition responseStatus (ex : Execution) : option Z :=
  match ex_task ex with
  | Responded res => Some (status res)
  | _ => None
  end.

(** ** Vocabulary of the statements about [POST /connect] *)

(** The request passes the two validation tests of the handler. *)
Definition wellFormed (req : ConnectRequestBody.t) : bool :=
  negb (falsy (ConnectRequestBody.walletAddress req)
        || falsy (ConnectRequestBody.challenge req)
        || falsy (ConnectRequestBody.signature req))
  && isValidStellarAddress (valueOf (ConnectRequestBody.walletAddress req)).

(** The stored challenge the request names, as [findUnique] returns it. *)
Definition lookup (req : ConnectRequestBody.t) (db : DB) : option AuthChallenge.t :=
  find (prisma.hasChallenge (valueOf (ConnectRequestBody.challenge req)))
       (authChallenges db).

(** The request passes every gate of the handler with the stored challenge
    [c]: validation, binding to the wallet, expiry, one-time use, signature. *)
Definition accepted (env : ConnectEnv) (req : ConnectRequestBody.t) (db : DB)
    (c : AuthChallenge.t) : Prop :=
  wellFormed req = true
  /\ lookup req db = Some c
  /\ AuthChallenge.walletAddress c = valueOf (ConnectRequestBody.walletAddress req)
  /\ isChallengeExpired (ne_expiryCheck env) (AuthChallenge.expiresAt c) = false
  /\ AuthChallenge.isUsed c = false
  /\ verifySignature (valueOf (ConnectRequestBody.walletAddress req))
                     (valueOf (ConnectRequestBody.challenge req))
                     (valueOf (ConnectRequestBody.signature req)) = true.

(** The user row the upsert creates for a wallet without one. *)
Definition createdUser (env : ConnectEnv) (walletAddress : string) : User.t :=
  {| User.id := ne_newUserId env;
     User.walletAddress := walletAddress;
     User.publicKey := walletAddress;
     User.createdAt := ne_createdAt env;
     User.lastLoginAt := Some (ne_now env) |}.

(** The user row the upsert resolves: the created one or the updated one. *)
Definition resolvedUser (env : ConnectEnv) (walletAddress : string) (db : DB) : User.t :=
  match find (prisma.hasWallet walletAddress) (users db) with
  | None => createdUser env walletAddress
  | Some u => User.setLastLoginAt (ne_now env) u
  end.

(** The table of users after the upsert. *)
Definition usersAfter (env : ConnectEnv) (walletAddress : string) (db : DB)
    : list User.t :=
  match find (prisma.hasWallet walletAddress) (users db) with
  | None => users db ++ [createdUser env walletAddress]
  | Some _ =>
      map (fun u => if prisma.hasWallet walletAddress u
                    then User.setLastLoginAt (ne_now env) u else u) (users db)
  end.

(** The creation of a user row can only reject on a generated id that is
    taken already. *)
Definition userSavable (env : ConnectEnv) (walletAddress : string) (db : DB) : bool :=
  match find (prisma.hasWallet walletAddress) (users db) with
  | None => negb (existsb (prisma.hasUserId (ne_newUserId env)) (users db))
  | Some _ => true
  end.

(** The table of challenges after a successful verification of the row
    with id [i]: marked used, linked to the user, old used rows purged. *)
Definition challengesAfter (env : ConnectEnv) (walletAddress i uid : string)
    (db : DB) : list AuthChallenge.t :=
  filter (fun c => negb (oldUsedOf walletAddress
                           (ne_cleanupNow env - 24 * 60 * 60 * 1000) c))
    (map (fun c => if prisma.hasId i c then AuthChallenge.linkUser uid c else c)
       (map (fun c => if prisma.hasId i c
                      then AuthChallenge.markUsed (ne_usedAt env) c else c)
          (authChallenges db))).

(** ** Vocabulary of the statements about users *)

(** [a] is not later than [b], for nullable login instants. *)
Definition loginLe (a b : option Z) : Prop :=
  match a, b with
  | None, _ => True
  | Some x, Some y => (x <= y)%Z
  | Some _, None => False
  end.

(** Every stored [lastLoginAt] is at or before [t]. *)
Definition loginsUpTo (t : Z) (rows : list User.t) : Prop :=
  forall u at_, In u rows -> User.lastLoginAt u = Some at_ -> (at_ <= t)%Z.

(** Every user of [old] is still in [new], with the same id, address and
    creation instant, and a [lastLoginAt] that did not go back. *)
Definition succeeds (old new : list User.t) : Prop :=
  forall u, In u old ->
    exists u', In u' new
      /\ User.id u' = User.id u
      /\ User.walletAddress u' = User.walletAddress u
      /\ User.createdAt u' = User.createdAt u
      /\ loginLe (User.lastLoginAt u) (User.lastLoginAt u').

(** The two operations of the subsystem, each with what it reads. *)
Inductive Operation :=
| IssueChallenge (env : ChallengeEnv) (req : ChallengeRequestBody.t)
| VerifyAndAuthenticate (env : ConnectEnv) (req : ConnectRequestBody.t).

Definition perform (op : Operation) (db : DB) : DB :=
  match op with
  | IssueChallenge env req => snd (post_challenge env req db)
  | VerifyAndAuthenticate env req => snd (post_connect env req db)
  end.

(** Operations served one after the other. *)
Fixpoint serve (ops : list Operation) (db : DB) : DB :=
  match ops with
  | [] => db
  | op :: later => serve later (perform op db)
  end.

(** The readings [const now = new Date()] of successive verifications do
    not go back, starting from [t]. *)
Fixpoint clockOrdered (t : Z) (ops : list Operation) : Prop :=
  match ops with
  | [] => True
  | IssueChallenge _ _ :: later => clockOrdered t later
  | VerifyAndAuthenticate env _ :: later =>
      (t <= ne_now env)%Z /\ clockOrdered (ne_now env) later
  end.

(** The row [POST /challenge] stores. *)
Definition issuedChallenge (env : ChallengeEnv) (walletAddress : string)
    : AuthChallenge.t :=
  {| AuthChallenge.id := ce_newId env;
     AuthChallenge.challenge :=
       generateChallenge (ce_timestamp env) (ce_randomBytes env);
     AuthChallenge.walletAddress := walletAddress;
     AuthChallenge.expiresAt := getChallengeExpiry LocalTZA (ce_expiryNow env);
     AuthChallenge.isUsed := false;
     AuthChallenge.usedAt := None;
     AuthChallenge.userId := None |}.

End Routes.

(** The row whose column [key] holds [k]: the test of a [where] on a unique
    column. *)
Definition keyIs {A : Type} (key : A -> string) (k : string) (x : A) : bool :=
  key x =? k.

(* ===================================================================== *)
(** * Sample collaborators and data

    Stand-ins for the imported collaborators (the Stellar service and the
    JWT utility are outside this development) and a small database, used
    to run the handlers on concrete inputs. *)
(* ===================================================================== *)

Module Sample.

(** "G" followed by 55 more characters. *)
Definition isValidStellarAddress (a : string) : bool :=
  (String.length a =? 56)%nat && String.prefix "G" a.

Definition sign (walletAddress message : string) : string :=
  "sig(" ++ walletAddress ++ "," ++ message ++ ")".

Definition verifySignature (walletAddress message signature : string) : bool :=
  signature =? sign walletAddress message.

Definition generateToken (userId walletAddress : string) : string :=
  "jwt." ++ userId ++ "." ++ walletAddress.

Definition walletA : string :=
  "GAAAAAAAAAAAAAAAAAAAAAAAAAAAAAAAAAAAAAAAAAAAAAAAAAAAAAAA".
Definition walletB : string :=
  "GBBBBBBBBBBBBBBBBBBBBBBBBBBBBBBBBBBBBBBBBBBBBBBBBBBBBBBB".

Definition bytesA : RandomSource := fun _ => x2a%byte.
Definition bytesB : RandomSource := fun _ => x2b%byte.

Definition issuedAt : Z := 1700000000000.
Definition tokenA : string := generateChallenge issuedAt bytesA.

(** The challenge of [walletA], as [POST /challenge] stores it. *)
Definition challengeA : AuthChallenge.t :=
  {| AuthChallenge.id := "ch-1";
     AuthChallenge.challenge := tokenA;
     AuthChallenge.walletAddress := walletA;
     AuthChallenge.expiresAt := issuedAt + 300000;
     AuthChallenge.isUsed := false;
     AuthChallenge.usedAt := None;
     AuthChallenge.userId := None |}.

(** A challenge of [walletA] that was used and has expired since. *)
Definition usedExpired : AuthChallenge.t :=
  {| AuthChallenge.id := "ch-0";
     AuthChallenge.challenge := generateChallenge (issuedAt - 900000) bytesB;
     AuthChallenge.walletAddress := walletA;
     AuthChallenge.expiresAt := issuedAt - 600000;
     AuthChallenge.isUsed := true;
     AuthChallenge.usedAt := Some (issuedAt - 800000);
     AuthChallenge.userId := Some "user-0" |}.

Definition db0 : DB := {| authChallenges := [challengeA]; users := [] |}.
Definition dbUsed : DB := {| authChallenges := [usedExpired]; users := [] |}.

(** [walletA] answers its challenge. *)
Definition request : ConnectRequestBody.t :=
  {| ConnectRequestBody.walletAddress := Some walletA;
     ConnectRequestBody.challenge := Some tokenA;
     ConnectRequestBody.signature := Some (sign walletA tokenA) |}.

(** [walletB] presents the challenge of [walletA], signed by itself. *)
Definition requestB : ConnectRequestBody.t :=
  {| ConnectRequestBody.walletAddress := Some walletB;
     ConnectRequestBody.challenge := Some tokenA;
     ConnectRequestBody.signature := Some (sign walletB tokenA) |}.

Definition requestUnsigned : ConnectRequestBody.t :=
  {| ConnectRequestBody.walletAddress := Some walletA;
     ConnectRequestBody.challenge := Some tokenA;
     ConnectRequestBody.signature := None |}.

Definition challengeRequest : ChallengeRequestBody.t :=
  {| ChallengeRequestBody.walletAddress := Some walletA |}.

(** Readings of a verification that starts [after] ms after issuance. *)
Definition connectEnv (after : Z) (newUserId : string) : ConnectEnv :=
  {| ne_expiryCheck := issuedAt + after;
     ne_usedAt := issuedAt + after + 1;
     ne_now := issuedAt + after + 2;
     ne_createdAt := issuedAt + after + 3;
     ne_cleanupNow := issuedAt + after + 3;
     ne_newUserId := newUserId |}.

Definition env1 : ConnectEnv := connectEnv 100000 "user-1".
Definition env2 : ConnectEnv := connectEnv 100010 "user-2".
Definition envAtExpiry : ConnectEnv := connectEnv 300000 "user-1".
Definition envLate : ConnectEnv := connectEnv 300001 "user-1".

Definition challengeEnv : ChallengeEnv :=
  {| ce_purgeNow := issuedAt;
     ce_timestamp := issuedAt;
     ce_randomBytes := bytesA;
     ce_expiryNow := issuedAt;
     ce_newId := "ch-1" |}.

Definition post_connect :=
  post_connect isValidStellarAddress verifySignature generateToken.
Definition post_challenge := post_challenge isValidStellarAddress (JS.fixedZone 0).

(** Two executions of the same request, both in flight. *)
Definition pool : list Execution :=
  [ {| ex_env := env1; ex_task := AtStart request |};
    {| ex_env := env2; ex_task := AtStart request |} ].

(** Both executions read the challenge before either writes it. *)
Definition racing : list nat :=
  [0; 1; 0; 0; 0; 0; 0; 0; 1; 1; 1; 1; 1; 1]%nat.

(** The first execution responds before the second starts. *)
Definition oneAfterTheOther : list nat :=
  [0; 0; 0; 0; 0; 0; 0; 1; 1; 1; 1; 1; 1; 1]%nat.

Definition interleave :=
  interleave isValidStellarAddress verifySignature generateToken.

End Sample.

(* ===================================================================== *)
(** * middleware/auth.middleware.ts *)
(* ===================================================================== *)

(** [JwtPayload] of [types/auth.types.ts]. *)
Module JwtPayload.
Record t := {
  userId : string;
  walletAddress : string;
  iat : option Z;
  exp : option Z
}.
End JwtPayload.

(** What the middleware reads and writes of an [AuthRequest]: the header
    [authorization] and the field [user]. *)
Module AuthRequest.
Record t := {
  authorization : option string;
  user : option JwtPayload.t
}.

Definition setUser (decoded : JwtPayload.t) (req : t) : t :=
  {| authorization := authorization req; user := Some decoded |}.
End AuthRequest.

(** How a middleware ends: it calls [next()] with the request as it has
    become, or it sends a response. *)
Inductive Handled :=
| CallNext (req : AuthRequest.t)
| Respond (res : Response).

(** [s.substring(n)] *)
Definition substringFrom (n : nat) (s : string) : string :=
  String.substring n (String.length s - n) s.

(** [authHeader && authHeader.startsWith('Bearer ') ? authHeader.substring(7) : null] *)
Definition bearerToken (authHeader : option string) : option string :=
  if falsy authHeader then None
  else if String.prefix "Bearer " (valueOf authHeader)
       then Some (substringFrom 7 (valueOf authHeader))
       else None.

Definition unauthorized (message : string) : Response :=
  json 401 (ErrorBody "Unauthorized" message).

Section Middleware.

(** [verifyToken] of [utils/jwt.util]: the claims of a token, [null] for a
    token it does not accept; [Rejected] stands for a thrown exception. *)
Variable verifyToken : string -> Outcome (option JwtPayload.t).

(** [authenticateToken(req, res, next)] *)
Definition authenticateToken (req : AuthRequest.t) : Handled :=
  let token := bearerToken (AuthRequest.authorization req) in
  if falsy token then
    Respond (unauthorized "Access token is required")
  else
    match verifyToken (valueOf token) with
    | Resolved None => Respond (unauthorized "Invalid or expired token")
    | Resolved (Some decoded) => CallNext (AuthRequest.setUser decoded req)
    | Rejected => Respond (internalError "Authentication failed")
    end.

(** [optionalAuthentication(req, res, next)] *)
Definition optionalAuthentication (req : AuthRequest.t) : Handled :=
  let token := bearerToken (AuthRequest.authorization req) in
  if negb (falsy token) then
    match verifyToken (valueOf token) with
    | Resolved (Some decoded) => CallNext (AuthRequest.setUser decoded req)
    | Resolved None => CallNext req
    | Rejected => CallNext req
    end
  else CallNext req.

End Middleware.

(* ===================================================================== *)
(** * Vocabulary of the statements about the table of challenges *)
(* ===================================================================== *)

(** Every row of [new] is a row of [old] with the same id, token, wallet
    and expiry, and an [isUsed] that was not reset. *)
Definition challengesKept (old new : list AuthChallenge.t) : Prop :=
  forall r', In r' new ->
    exists r, In r old
      /\ AuthChallenge.id r' = AuthChallenge.id r
      /\ AuthChallenge.challenge r' = AuthChallenge.challenge r
      /\ AuthChallenge.walletAddress r' = AuthChallenge.walletAddress r
      /\ AuthChallenge.expiresAt r' = AuthChallenge.expiresAt r
      /\ (AuthChallenge.isUsed r = true -> AuthChallenge.isUsed r' = true).

(* ===================================================================== *)
(** * Vocabulary of the statements about the outcomes of [POST /connect] *)
(* ===================================================================== *)

Section Outcomes.

Variable isValidStellarAddress : string -> bool.
Variable verifySignature : string -> string -> string -> bool.
Variable generateToken : string -> string -> string.

Local Abbreviation accepted := (accepted isValidStellarAddress verifySignature).
Local Abbreviation wellFormed := (wellFormed isValidStellarAddress).
Local Abbreviation wa_of req := (valueOf (ConnectRequestBody.walletAddress req)).
Local Abbreviation signed req :=
  (verifySignature (wa_of req) (valueOf (ConnectRequestBody.challenge req))
                   (valueOf (ConnectRequestBody.signature req))).

(** The eight ways [POST /connect] ends, each with the answer and the
    database it leaves. *)
Inductive ConnectOutcome (env : ConnectEnv) (req : ConnectRequestBody.t) (db : DB)
    : Response * DB -> Prop :=
| EndsInvalid message :
    wellFormed req = false ->
    ConnectOutcome env req db (validationError message, db)
| EndsAbsent :
    wellFormed req = true ->
    lookup req db = None ->
    ConnectOutcome env req db
      (authenticationError "Invalid or expired challenge", db)
| EndsMismatch c :
    wellFormed req = true ->
    lookup req db = Some c ->
    AuthChallenge.walletAddress c <> wa_of req ->
    ConnectOutcome env req db
      (authenticationError "Challenge does not match wallet address", db)
| EndsExpired c :
    wellFormed req = true ->
    lookup req db = Some c ->
    AuthChallenge.walletAddress c = wa_of req ->
    isChallengeExpired (ne_expiryCheck env) (AuthChallenge.expiresAt c) = true ->
    ConnectOutcome env req db
      (authenticationError "Challenge has expired. Please request a new one.",
       {| authChallenges :=
            filter (fun x => negb (prisma.hasId (AuthChallenge.id c) x))
                   (authChallenges db);
          users := users db |})
| EndsUsed c :
    wellFormed req = true ->
    lookup req db = Some c ->
    AuthChallenge.walletAddress c = wa_of req ->
    isChallengeExpired (ne_expiryCheck env) (AuthChallenge.expiresAt c) = false ->
    AuthChallenge.isUsed c = true ->
    ConnectOutcome env req db
      (authenticationError "Challenge has already been used", db)
| EndsBadSignature c :
    wellFormed req = true ->
    lookup req db = Some c ->
    AuthChallenge.walletAddress c = wa_of req ->
    isChallengeExpired (ne_expiryCheck env) (AuthChallenge.expiresAt c) = false ->
    AuthChallenge.isUsed c = false ->
    signed req = false ->
    ConnectOutcome env req db (authenticationError "Invalid signature", db)
| EndsUnsaved c :
    accepted env req db c ->
    userSavable env (wa_of req) db = false ->
    ConnectOutcome env req db
      (internalError "Failed to authenticate wallet",
       {| authChallenges :=
            map (fun x => if prisma.hasId (AuthChallenge.id c) x
                          then AuthChallenge.markUsed (ne_usedAt env) x else x)
                (authChallenges db);
          users := users db |})
| EndsAuthenticated c :
    accepted env req db c ->
    userSavable env (wa_of req) db = true ->
    let u := resolvedUser env (wa_of req) db in
    ConnectOutcome env req db
      (json 200 (ConnectResponse (generateToken (User.id u) (wa_of req))
                   (User.id u) (wa_of req) (User.createdAt u) (ne_now env)),
       {| authChallenges :=
            challengesAfter env (wa_of req) (AuthChallenge.id c) (User.id u) db;
          users := usersAfter env (wa_of req) db |}).

End Outcomes.

(** Further sample data: a token codec and requests with headers. *)
Module Demo.

(** Claims printed as "jwt.<userId>.<walletAddress>" by
    [Sample.generateToken] are read back; anything else is refused. *)
Definition verifyToken (token : string) : Outcome (option JwtPayload.t) :=
  if String.prefix "jwt.user-1." token then
    Resolved (Some {| JwtPayload.userId := "user-1";
                      JwtPayload.walletAddress := substringFrom 11 token;
                      JwtPayload.iat := None;
                      JwtPayload.exp := None |})
  else if token =? "boom" then Rejected
  else Resolved None.

Definition withHeader (h : option string) : AuthRequest.t :=
  {| AuthRequest.authorization := h; AuthRequest.user := None |}.

Definition sessionToken : string := Sample.generateToken "user-1" Sample.walletA.

Definition sessionClaims : JwtPayload.t :=
  {| JwtPayload.userId := "user-1";
     JwtPayload.walletAddress := Sample.walletA;
     JwtPayload.iat := None;
     JwtPayload.exp := None |}.

Definition emptyDb : DB := {| authChallenges := []; users := [] |}.

Definition wrongSignature : ConnectRequestBody.t :=
  {| ConnectRequestBody.walletAddress := Some Sample.walletA;
     ConnectRequestBody.challenge := Some Sample.tokenA;
     ConnectRequestBody.signature := Some "forged" |}.

(** A database where the id the sample verification would give a new user
    is taken by a user of another wallet. *)
Definition dbIdTaken : DB :=
  {| authChallenges := [Sample.challengeA];
     users := [ {| User.id := "user-1";
                   User.walletAddress := Sample.walletB;
                   User.publicKey := Sample.walletB;
                   User.createdAt := 0;
                   User.lastLoginAt := None |} ] |}.

(** The sample challenge beside a used one of the same wallet. *)
Definition dbTwo : DB :=
  {| authChallenges := [Sample.usedExpired; Sample.challengeA]; users := [] |}.

Definition noWallet : ChallengeRequestBody.t :=
  {| ChallengeRequestBody.walletAddress := None |}.

(** A user of [Sample.walletA] who logged in before. *)
Definition returningUser : User.t :=
  {| User.id := "user-1";
     User.walletAddress := Sample.walletA;
     User.publicKey := Sample.walletA;
     User.createdAt := Sample.issuedAt - 5000;
     User.lastLoginAt := Some (Sample.issuedAt - 1000) |}.

Definition dbReturning : DB :=
  {| authChallenges := [Sample.challengeA]; users := [returningUser] |}.

(** A second challenge of [Sample.walletA] and the request that answers it. *)
Definition tokenA2 : string := generateChallenge (Sample.issuedAt + 1) Sample.bytesB.

Definition challengeA2 : AuthChallenge.t :=
  {| AuthChallenge.id := "ch-2";
     AuthChallenge.challenge := tokenA2;
     AuthChallenge.walletAddress := Sample.walletA;
     AuthChallenge.expiresAt := Sample.issuedAt + 300001;
     AuthChallenge.isUsed := false;
     AuthChallenge.usedAt := None;
     AuthChallenge.userId := None |}.

Definition request2 : ConnectRequestBody.t :=
  {| ConnectRequestBody.walletAddress := Some Sample.walletA;
     ConnectRequestBody.challenge := Some tokenA2;
     ConnectRequestBody.signature := Some (Sample.sign Sample.walletA tokenA2) |}.

Definition dbTwoChallenges : DB :=
  {| authChallenges := [Sample.challengeA; challengeA2]; users := [] |}.

(** Readings of a verification whose clock is behind that of [Sample.env1]. *)
Definition envEarlier : ConnectEnv := Sample.connectEnv 50000 "user-9".

(** 2023-11-05T06:00:00Z, when US Eastern clocks go from 02:00 daylight
    time (UTC-4) back to 01:00 standard time (UTC-5). *)
Definition clocksSetBack : Z := 1699164000000.

Definition usEastern : JS.TimeZone :=
  JS.zoneWithTransition clocksSetBack (-4 * 60 * 60 * 1000) (-5 * 60 * 60 * 1000).

(** Readings of an issuance whose clock reads [now] throughout. *)
Definition issuingAt (now : Z) : ChallengeEnv :=
  {| ce_purgeNow := now;
     ce_timestamp := now;
     ce_randomBytes := Sample.bytesA;
     ce_expiryNow := now;
     ce_newId := "ch-1" |}.

End Demo.

(* ===================================================================== *)
(** * Properties *)
(* ===================================================================== *)

(** ** The challenge generator *)

Example toStringHex_sample :
  JS.toStringHex [x00; xff; x1a]%byte = "00ff1a".
Proof. reflexivity. Qed.

Example generateChallenge_sample :
  generateChallenge 1700000000000 (fun _ => x2a%byte)
  = "xelma_auth_1700000000000_2a2a2a2a2a2a2a2a2a2a2a2a2a2a2a2a2a2a2a2a2a2a2a2a2a2a2a2a2a2a2a2a".
Proof. reflexivity. Qed.

(** Decoding undoes the encoding, byte by byte. *)
Lemma fromStringHex_hexOfByte (b : byte) (rest : string) :
  JS.fromStringHex (JS.hexOfByte b ++ rest)
  = match JS.fromStringHex rest with Some bs => Some (b :: bs) | None => None end.
Proof.
  destruct b; reflexivity.
Qed.

Lemma fromStringHex_toStringHex (buf : list byte) :
  JS.fromStringHex (JS.toStringHex buf) = Some buf.
Proof.
  induction buf as [|b rest IH]; [reflexivity|].
  cbn [JS.toStringHex]. rewrite fromStringHex_hexOfByte, IH. reflexivity.
Qed.

(** Taking the date apart in local time, adding the minutes and putting it
    together again moves the time value by the minutes added, and by the
    difference between the offset in force at the reading and the offset
    under which the resulting local time is read. *)
Lemma getChallengeExpiry_drift (tz : JS.TimeZone) (now : Z) :
  getChallengeExpiry tz now
  = now + 300000 + (tz now true - tz (now + tz now true + 300000) false).
Proof.
  unfold getChallengeExpiry, JS.setMinutes, JS.getMinutes, JS.UTC, JS.MakeDate,
    JS.MakeTime, JS.Day, JS.HourFromTime, JS.MinFromTime, JS.SecFromTime,
    JS.msFromTime, JS.LocalTime, CHALLENGE_EXPIRY_MINUTES,
    JS.msPerDay, JS.msPerHour, JS.msPerMinute, JS.msPerSecond.
  remember (now + tz now true) as lt eqn:Hlt.
  match goal with
  | |- ?moved - tz ?moved false = _ =>
      assert (Hmoved : moved = lt + 300000)
        by (Z.div_mod_to_equations; lia);
      rewrite Hmoved
  end.
  lia.
Qed.

(** Where the two offsets agree, the move is the five minutes. *)
Lemma getChallengeExpiry_plus (tz : JS.TimeZone) (now : Z) :
  tz (now + tz now true + 300000) false = tz now true ->
  getChallengeExpiry tz now = now + 300000.
Proof.
  intros Hsame. rewrite getChallengeExpiry_drift, Hsame. lia.
Qed.

Lemma randomBytes_length (size : nat) (source : RandomSource) :
  List.length (crypto.randomBytes size source) = size.
Proof.
  unfold crypto.randomBytes. now rewrite length_map, length_seq.
Qed.

Lemma length_append (a b : string) :
  String.length (a ++ b) = (String.length a + String.length b)%nat.
Proof.
  induction a as [|c a IH]; cbn; [reflexivity | now rewrite IH].
Qed.

Lemma append_assoc (a b c : string) : (a ++ b) ++ c = a ++ b ++ c.
Proof.
  induction a as [|x a IH]; cbn; [reflexivity | now rewrite IH].
Qed.

(** Two strings that end with parts of the same length end with the same
    part when they are equal. *)
Lemma append_inj_r (s1 s2 t1 t2 : string) :
  String.length t1 = String.length t2 ->
  s1 ++ t1 = s2 ++ t2 ->
  t1 = t2.
Proof.
  revert s2. induction s1 as [|c s1 IH]; intros [|d s2] Hlen Heq; cbn in Heq.
  - exact Heq.
  - subst t1. cbn in Hlen. rewrite length_append in Hlen. lia.
  - subst t2. cbn in Hlen. rewrite length_append in Hlen. lia.
  - injection Heq as _ Heq. exact (IH s2 Hlen Heq).
Qed.

Lemma prefix_append (a b : string) : String.prefix a (a ++ b) = true.
Proof.
  induction a as [|c a IH]; cbn.
  - now destruct b.
  - destruct (ascii_dec c c) as [_|Hne]; [exact IH | now elim Hne].
Qed.

Lemma toStringHex_length (buf : list byte) :
  String.length (JS.toStringHex buf) = (2 * List.length buf)%nat.
Proof.
  induction buf as [|b rest IH]; [reflexivity|].
  cbn [JS.toStringHex List.length]. rewrite length_append, IH.
  unfold JS.hexOfByte. cbn [String.length]. lia.
Qed.

Lemma everyChar_hexOfByte (b : byte) (rest : string) :
  JS.everyChar JS.isHexDigit (JS.hexOfByte b ++ rest)
  = JS.everyChar JS.isHexDigit rest.
Proof.
  destruct b; reflexivity.
Qed.

Lemma toStringHex_digits (buf : list byte) :
  JS.everyChar JS.isHexDigit (JS.toStringHex buf) = true.
Proof.
  induction buf as [|b rest IH]; [reflexivity|].
  cbn [JS.toStringHex]. now rewrite everyChar_hexOfByte.
Qed.

Lemma toStringHex_inj (a b : list byte) :
  JS.toStringHex a = JS.toStringHex b -> a = b.
Proof.
  intros Heq.
  pose proof (fromStringHex_toStringHex a) as Ha.
  rewrite Heq, fromStringHex_toStringHex in Ha. now injection Ha.
Qed.

(** C7 (challenge generator) does not hold of [getChallengeExpiry]: the
    expiry is not always the issuance time plus the 5-minute window that
    [CHALLENGE_EXPIRY_MINUTES] and [getChallengeExpirySeconds] announce.
    The code adds the minutes to the local time of day ([setMinutes]), so
    in a process whose zone has daylight saving (here US Eastern, clocks
    set back on 2023-11-05 at 06:00 UTC) a challenge issued at 01:57 local
    time, three minutes before the change, expires 65 minutes later, and
    one issued at the second 01:30 gets an expiry 55 minutes in the past:
    it is expired when issued. [POST /challenge] stores and answers these
    instants. *)
Theorem expiry_window_breaks_at_fall_back :
  let zone := Demo.usEastern in
  let at0157 := (Demo.clocksSetBack - 3 * 60 * 1000)%Z in
  let at0130 := (Demo.clocksSetBack + 30 * 60 * 1000)%Z in
  getChallengeExpirySeconds = 300%Z
  /\ getChallengeExpiry zone at0157 = (at0157 + 65 * 60 * 1000)%Z
  /\ getChallengeExpiry zone at0130 = (at0130 - 55 * 60 * 1000)%Z
  /\ isChallengeExpired at0130 (getChallengeExpiry zone at0130) = true
  /\ body (fst (post_challenge Sample.isValidStellarAddress zone
                  (Demo.issuingAt at0157) Sample.challengeRequest Demo.emptyDb))
     = ChallengeResponse (generateChallenge at0157 Sample.bytesA)
         (at0157 + 65 * 60 * 1000)%Z.
Proof. vm_compute. repeat split. Qed.

(** ** Lists as tables *)

Section Tables.

Context {A : Type}.

Lemma find_map_preserved (p : A -> bool) (g : A -> A) (l : list A) :
  (forall x, p (g x) = p x) ->
  find p (map g l) = option_map g (find p l).
Proof.
  intros Hp. induction l as [|x l IH]; [reflexivity|].
  cbn. rewrite Hp. destruct (p x); [reflexivity | exact IH].
Qed.

Lemma find_In_some (p : A -> bool) (l : list A) (x : A) :
  In x l -> p x = true -> exists y, find p l = Some y.
Proof.
  intros Hin Hp. destruct (find p l) as [y|] eqn:Hf.
  - now exists y.
  - rewrite (find_none _ _ Hf x Hin) in Hp. discriminate.
Qed.

Lemma find_existsb (p : A -> bool) (l : list A) :
  existsb p l = match find p l with Some _ => true | None => false end.
Proof.
  induction l as [|x l IH]; [reflexivity|].
  cbn. destruct (p x); [reflexivity | exact IH].
Qed.

(** Removing rows leaves the first row of a test in place when it is kept. *)
Lemma find_filter_kept (p q : A -> bool) (l : list A) (x : A) :
  find p l = Some x -> q x = true -> find p (filter q l) = Some x.
Proof.
  intros Hf Hq. induction l as [|y l IH]; [discriminate|].
  cbn in Hf. destruct (p y) eqn:Hpy.
  - injection Hf as ->. cbn. rewrite Hq. cbn. now rewrite Hpy.
  - cbn. destruct (q y); cbn; [rewrite Hpy|]; now apply IH.
Qed.

Variable key : A -> string.

Lemma find_key_absent (k : string) (l : list A) :
  ~ In k (map key l) -> find (keyIs key k) l = None.
Proof.
  intros Hnot. destruct (find (keyIs key k) l) as [y|] eqn:Hf; [|reflexivity].
  apply find_some in Hf. destruct Hf as [Hin Hk].
  unfold keyIs in Hk. apply String.eqb_eq in Hk. subst k.
  exfalso. apply Hnot. now apply in_map.
Qed.

(** With a unique key, removing rows leaves the row of a key or nothing. *)
Lemma find_key_filter (k : string) (q : A -> bool) (l : list A) (x : A) :
  NoDup (map key l) ->
  find (keyIs key k) l = Some x ->
  find (keyIs key k) (filter q l) = if q x then Some x else None.
Proof.
  induction l as [|y l IH]; intros Hnd Hf; [discriminate|].
  cbn in Hnd. apply NoDup_cons_iff in Hnd. destruct Hnd as [Hnotin Hnd].
  cbn in Hf. destruct (keyIs key k y) eqn:Hky.
  - injection Hf as ->. cbn. destruct (q x) eqn:Hq.
    + cbn. now rewrite Hky.
    + apply find_key_absent. unfold keyIs in Hky. apply String.eqb_eq in Hky.
      subst k. intros Hin. apply Hnotin.
      apply in_map_iff in Hin. destruct Hin as [z [Hz Hin]].
      apply filter_In in Hin. rewrite <- Hz. apply in_map. tauto.
  - cbn. destruct (q y); cbn; [rewrite Hky|]; now apply IH.
Qed.

Lemma find_key_unique_row (k : string) (l : list A) (x : A) :
  NoDup (map key l) ->
  find (keyIs key k) l = Some x ->
  filter (keyIs key k) l = [x].
Proof.
  induction l as [|y l IH]; intros Hnd Hf; [discriminate|].
  cbn in Hnd. apply NoDup_cons_iff in Hnd. destruct Hnd as [Hnotin Hnd].
  cbn in Hf. cbn. destruct (keyIs key k y) eqn:Hky.
  - injection Hf as ->. f_equal.
    unfold keyIs in Hky. apply String.eqb_eq in Hky. subst k.
    destruct (filter (keyIs key (key x)) l) as [|z r] eqn:Hfl; [reflexivity|].
    exfalso. apply Hnotin.
    assert (Hin : In z (filter (keyIs key (key x)) l)) by (rewrite Hfl; now left).
    apply filter_In in Hin. destruct Hin as [Hin Hz].
    unfold keyIs in Hz. apply String.eqb_eq in Hz. rewrite <- Hz.
    now apply in_map.
  - now apply IH.
Qed.

Lemma map_key_preserved (g : A -> A) (l : list A) :
  (forall x, key (g x) = key x) ->
  map key (map g l) = map key l.
Proof.
  intros Hg. rewrite map_map. apply map_ext. exact Hg.
Qed.

End Tables.

(** ** [POST /challenge] *)

Ltac split_branch :=
  match goal with
  | |- context [if ?b then _ else _] => destruct b eqn:?
  | |- context [match ?x with Some _ => _ | None => _ end] => destruct x eqn:?
  end.

Section ChallengeRoute.

Variable isValidStellarAddress : string -> bool.
Variable LocalTZA : JS.TimeZone.

(** The two outcomes of a valid request: the purge, then the new row, or
    the purge and a rejected [create]. *)
Lemma post_challenge_valid (env : ChallengeEnv) (req : ChallengeRequestBody.t)
    (db : DB) :
  falsy (ChallengeRequestBody.walletAddress req) = false ->
  isValidStellarAddress (valueOf (ChallengeRequestBody.walletAddress req)) = true ->
  let w := valueOf (ChallengeRequestBody.walletAddress req) in
  let kept := filter (fun c => negb (expiredOf w (ce_purgeNow env) c))
                     (authChallenges db) in
  let row := issuedChallenge LocalTZA env w in
  post_challenge isValidStellarAddress LocalTZA env req db
  = (json 200 (ChallengeResponse (AuthChallenge.challenge row)
                 (AuthChallenge.expiresAt row)),
     {| authChallenges := (kept ++ [row])%list; users := users db |})
  \/ post_challenge isValidStellarAddress LocalTZA env req db
     = (internalError "Failed to generate authentication challenge",
        {| authChallenges := kept; users := users db |}).
Proof.
  intros Hpres Hvalid w kept row.
  unfold post_challenge, challenge_try, bind, ret.
  rewrite Hpres, Hvalid. cbn [negb].
  unfold prisma.authChallenge_deleteMany, prisma.authChallenge_create.
  cbn [authChallenges prisma.withChallenges users].
  match goal with |- context [if ?b then _ else _] => destruct b end.
  - now right.
  - now left.
Qed.

(** C5, as the code has it. For a valid request, the housekeeping purge of
    [POST /challenge] deletes exactly the challenges of the requesting
    wallet whose [expiresAt] is before the clock reading of the purge,
    used or not: the table afterwards is the old table without those rows,
    in the same order and unchanged, followed by the new row when it could
    be stored. So a challenge of another wallet and an unexpired challenge
    are kept. *)
Theorem purge_deletes_expired_of_wallet (env : ChallengeEnv)
    (req : ChallengeRequestBody.t) (db : DB) :
  falsy (ChallengeRequestBody.walletAddress req) = false ->
  isValidStellarAddress (valueOf (ChallengeRequestBody.walletAddress req)) = true ->
  let w := valueOf (ChallengeRequestBody.walletAddress req) in
  let db' := snd (post_challenge isValidStellarAddress LocalTZA env req db) in
  exists kept added,
    authChallenges db' = (kept ++ added)%list
    /\ (added = [] \/ added = [issuedChallenge LocalTZA env w])
    /\ kept = filter (fun c => negb (expiredOf w (ce_purgeNow env) c))
                     (authChallenges db)
    /\ (forall c, In c kept <->
          In c (authChallenges db)
          /\ ~ (AuthChallenge.walletAddress c = w
                /\ (AuthChallenge.expiresAt c < ce_purgeNow env)%Z))
    /\ (forall c, In c (authChallenges db) ->
          AuthChallenge.walletAddress c <> w -> In c (authChallenges db'))
    /\ (forall c, In c (authChallenges db) ->
          (ce_purgeNow env <= AuthChallenge.expiresAt c)%Z ->
          In c (authChallenges db')).
Proof.
  intros Hpres Hvalid w db'.
  set (kept := filter (fun c => negb (expiredOf w (ce_purgeNow env) c))
                      (authChallenges db)).
  assert (Hkept : forall c, In c kept <->
            In c (authChallenges db)
            /\ ~ (AuthChallenge.walletAddress c = w
                  /\ (AuthChallenge.expiresAt c < ce_purgeNow env)%Z)).
  { intros c. unfold kept. rewrite filter_In. unfold expiredOf.
    rewrite negb_true_iff, andb_false_iff, String.eqb_neq, Z.ltb_ge.
    split; intros [Hin H]; (split; [exact Hin|]).
    - intros [Hw Hlt]. destruct H; [contradiction | lia].
    - destruct (string_dec (AuthChallenge.walletAddress c) w) as [Hw|Hw];
        [right | now left].
      destruct (Z.lt_ge_cases (AuthChallenge.expiresAt c) (ce_purgeNow env));
        [exfalso; apply H; now split | assumption]. }
  assert (Hdb' : exists added,
            authChallenges db' = (kept ++ added)%list
            /\ (added = [] \/ added = [issuedChallenge LocalTZA env w])).
  { subst db'.
    destruct (post_challenge_valid env req db Hpres Hvalid) as [Hok | Hko].
    - rewrite Hok. exists [issuedChallenge LocalTZA env w]. split; [reflexivity | now right].
    - rewrite Hko. exists []. cbn [snd authChallenges]. rewrite app_nil_r.
      split; [reflexivity | now left]. }
  destruct Hdb' as (added & Hrows & Hadded).
  exists kept, added.
  split; [exact Hrows|]. split; [exact Hadded|]. split; [reflexivity|].
  split; [exact Hkept|]. split.
  - intros c Hin Hw. rewrite Hrows. apply in_or_app. left. apply Hkept.
    split; [exact Hin | tauto].
  - intros c Hin Hle. rewrite Hrows. apply in_or_app. left. apply Hkept.
    split; [exact Hin | lia].
Qed.

Lemma post_challenge_users (env : ChallengeEnv) (req : ChallengeRequestBody.t)
    (db : DB) :
  users (snd (post_challenge isValidStellarAddress LocalTZA env req db)) = users db.
Proof.
  unfold post_challenge, challenge_try, bind, ret,
    prisma.authChallenge_deleteMany, prisma.authChallenge_create.
  repeat (split_branch; cbn [fst snd users prisma.withChallenges authChallenges]);
    reflexivity.
Qed.

End ChallengeRoute.

(** Unfolding of the handlers and of the vocabulary of the statements. *)
Ltac open_handler := unfold post_connect, connect_try, bind, ret.
Ltac open_accepted := unfold accepted, wellFormed, lookup, userSavable.
Ltac open_wellFormedness := unfold wellFormed.
Ltac open_wellFormedness_in H := unfold wellFormed in H.
Ltac run_steps := cbn [fst snd connect_steps connect_step].

Section RouteFacts.

Variable isValidStellarAddress : string -> bool.
Variable verifySignature : string -> string -> string -> bool.
Variable generateToken : string -> string -> string.
Variable LocalTZA : JS.TimeZone.

Local Abbreviation post_connect :=
  (post_connect isValidStellarAddress verifySignature generateToken).
Local Abbreviation connect_steps :=
  (connect_steps isValidStellarAddress verifySignature generateToken).

(** Run alone, the step machine is the handler. *)
Lemma connect_steps_post_connect (env : ConnectEnv) (req : ConnectRequestBody.t)
    (db : DB) :
  connect_steps 7 env (AtStart req) db
  = (Responded (fst (post_connect env req db)), snd (post_connect env req db)).
Proof.
  unfold post_connect, connect_try.
  unfold bind, ret.
  repeat (first
    [ progress (run_steps;
                unfold awaited, prisma.authChallenge_findUnique,
                  prisma.authChallenge_delete, prisma.authChallenge_update,
                  prisma.user_findUnique, prisma.user_create, prisma.user_update,
                  prisma.authChallenge_deleteMany)
    | split_branch ]);
    congruence.
Qed.

Local Abbreviation wa_of req := (valueOf (ConnectRequestBody.walletAddress req)).
Local Abbreviation accepted := (accepted isValidStellarAddress verifySignature).
Local Abbreviation wellFormed := (wellFormed isValidStellarAddress).

Ltac run_connect :=
  open_handler;
  repeat (first
    [ progress (cbn [fst snd status json authenticationError validationError
                     internalError];
                unfold prisma.authChallenge_findUnique,
                  prisma.authChallenge_delete, prisma.authChallenge_update,
                  prisma.user_findUnique, prisma.user_create, prisma.user_update,
                  prisma.authChallenge_deleteMany)
    | split_branch ]).

Lemma post_connect_200 (env : ConnectEnv) (req : ConnectRequestBody.t) (db : DB) :
  status (fst (post_connect env req db)) = 200 ->
  exists c, accepted env req db c /\ userSavable env (wa_of req) db = true.
Proof.
  run_connect; intros H200; try discriminate H200.
  all: exists t; open_accepted.
  all: cbn [users prisma.withChallenges] in *.
  all: repeat match goal with
         | H : negb _ = false |- _ => apply negb_false_iff in H
         | H : (_ || _) = false |- _ => apply orb_false_iff in H; destruct H
         end.
  all: repeat match goal with
         | H : _ = _ |- _ => rewrite H
         end.
  all: repeat split; try reflexivity; now apply String.eqb_eq.
Qed.

Lemma hasId_markUsed (i : string) (at_ : Z) (x : AuthChallenge.t) :
  prisma.hasId i (if prisma.hasId i x then AuthChallenge.markUsed at_ x else x)
  = prisma.hasId i x.
Proof. destruct (prisma.hasId i x) eqn:E; [exact E | exact E]. Qed.

Lemma find_hasId_of_lookup (req : ConnectRequestBody.t) (db : DB) (c : AuthChallenge.t) :
  lookup req db = Some c ->
  exists c1, find (prisma.hasId (AuthChallenge.id c)) (authChallenges db) = Some c1.
Proof.
  intros Hlk. apply find_some in Hlk. destruct Hlk as [Hin _].
  apply (find_In_some _ _ c Hin). apply String.eqb_refl.
Qed.

(** The response and the database after a request that passes every gate. *)
Lemma post_connect_accepted (env : ConnectEnv) (req : ConnectRequestBody.t)
    (db : DB) (c : AuthChallenge.t) :
  accepted env req db c ->
  userSavable env (wa_of req) db = true ->
  let u := resolvedUser env (wa_of req) db in
  post_connect env req db
  = (json 200 (ConnectResponse (generateToken (User.id u) (wa_of req))
                 (User.id u) (wa_of req) (User.createdAt u) (ne_now env)),
     {| authChallenges :=
          challengesAfter env (wa_of req) (AuthChallenge.id c) (User.id u) db;
        users := usersAfter env (wa_of req) db |}).
Proof.
  intros (Hwf & Hlk & Hw & Hexp & Hused & Hsig) Hsav.
  destruct (find_hasId_of_lookup _ _ _ Hlk) as [c1 Hc1].
  open_wellFormedness_in Hwf.
  apply andb_true_iff in Hwf. destruct Hwf as [Hpres Hvalid].
  apply negb_true_iff in Hpres.
  open_handler.
  rewrite Hpres, Hvalid. cbn [negb].
  unfold prisma.authChallenge_findUnique. unfold lookup in Hlk. rewrite Hlk.
  rewrite Hw, String.eqb_refl. cbn [negb]. rewrite Hexp, Hused, Hsig. cbn [negb].
  unfold prisma.authChallenge_update at 1. rewrite Hc1.
  unfold prisma.user_findUnique. cbn [users prisma.withChallenges].
  unfold resolvedUser, usersAfter, userSavable, challengesAfter in *.
  destruct (find (prisma.hasWallet (wa_of req)) (users db)) as [u0|] eqn:Hu.
  - unfold prisma.user_update. cbn [users prisma.withChallenges]. rewrite Hu.
    unfold prisma.authChallenge_update.
    cbn [authChallenges prisma.withChallenges prisma.withUsers users].
    rewrite find_map_preserved by (intros x; apply hasId_markUsed).
    rewrite Hc1. cbn [option_map].
    unfold prisma.authChallenge_deleteMany.
    cbn [authChallenges prisma.withChallenges prisma.withUsers users
         User.setLastLoginAt User.id User.walletAddress User.createdAt
         User.lastLoginAt].
    apply find_some in Hu. destruct Hu as [_ Hu]. unfold prisma.hasWallet in Hu.
    apply String.eqb_eq in Hu. rewrite Hu. reflexivity.
  - unfold prisma.user_create. cbn [users prisma.withChallenges].
    apply negb_true_iff in Hsav. rewrite Hsav.
    rewrite (find_existsb (prisma.hasWallet (wa_of req))), Hu. cbn [orb].
    unfold prisma.authChallenge_update.
    cbn [authChallenges prisma.withChallenges prisma.withUsers users].
    rewrite find_map_preserved by (intros x; apply hasId_markUsed).
    rewrite Hc1. cbn [option_map].
    unfold prisma.authChallenge_deleteMany.
    cbn [authChallenges prisma.withChallenges prisma.withUsers users
         createdUser User.id User.walletAddress User.createdAt User.lastLoginAt].
    reflexivity.
Qed.

Ltac open_wellFormed H :=
  open_wellFormedness_in H;
  apply andb_true_iff in H;
  let Hpres := fresh "Hpres" in
  let Hvalid := fresh "Hvalid" in
  destruct H as [Hpres Hvalid];
  apply negb_true_iff in Hpres.

Ltac enter_connect Hpres Hvalid Hlk :=
  open_handler;
  rewrite Hpres, Hvalid; cbn [negb];
  unfold prisma.authChallenge_findUnique;
  unfold lookup in Hlk; rewrite Hlk.

(** Gate 1: a request that fails validation is answered 400 and nothing is
    read or written. *)
Lemma post_connect_invalid (env : ConnectEnv) (req : ConnectRequestBody.t) (db : DB) :
  wellFormed req = false ->
  exists message,
    post_connect env req db = (validationError message, db).
Proof.
  open_wellFormedness; open_handler.
  intros Hwf.
  destruct (falsy (ConnectRequestBody.walletAddress req)
            || falsy (ConnectRequestBody.challenge req)
            || falsy (ConnectRequestBody.signature req)).
  - eexists. reflexivity.
  - cbn [negb andb] in Hwf. rewrite Hwf. cbn [negb]. eexists. reflexivity.
Qed.

(** Gate 2: an unknown token. *)
Lemma post_connect_absent (env : ConnectEnv) (req : ConnectRequestBody.t) (db : DB) :
  wellFormed req = true ->
  lookup req db = None ->
  post_connect env req db
  = (authenticationError "Invalid or expired challenge", db).
Proof.
  intros Hwf Hlk. open_wellFormed Hwf. enter_connect Hpres Hvalid Hlk.
  reflexivity.
Qed.

(** Gate 3: the token is bound to another wallet. *)
Lemma post_connect_mismatch (env : ConnectEnv) (req : ConnectRequestBody.t)
    (db : DB) (c : AuthChallenge.t) :
  wellFormed req = true ->
  lookup req db = Some c ->
  AuthChallenge.walletAddress c <> wa_of req ->
  post_connect env req db
  = (authenticationError "Challenge does not match wallet address", db).
Proof.
  intros Hwf Hlk Hw. open_wellFormed Hwf. enter_connect Hpres Hvalid Hlk.
  apply String.eqb_neq in Hw. rewrite Hw. reflexivity.
Qed.

(** Gate 4: the challenge has expired; its row is deleted. *)
Lemma post_connect_expired (env : ConnectEnv) (req : ConnectRequestBody.t)
    (db : DB) (c : AuthChallenge.t) :
  wellFormed req = true ->
  lookup req db = Some c ->
  AuthChallenge.walletAddress c = wa_of req ->
  isChallengeExpired (ne_expiryCheck env) (AuthChallenge.expiresAt c) = true ->
  post_connect env req db
  = (authenticationError "Challenge has expired. Please request a new one.",
     {| authChallenges :=
          filter (fun x => negb (prisma.hasId (AuthChallenge.id c) x))
                 (authChallenges db);
        users := users db |}).
Proof.
  intros Hwf Hlk Hw Hexp.
  destruct (find_hasId_of_lookup _ _ _ Hlk) as [c1 Hc1].
  open_wellFormed Hwf. enter_connect Hpres Hvalid Hlk.
  rewrite Hw, String.eqb_refl. cbn [negb]. rewrite Hexp.
  unfold prisma.authChallenge_delete. rewrite Hc1. reflexivity.
Qed.

(** Gate 5: the challenge was used already. *)
Lemma post_connect_used (env : ConnectEnv) (req : ConnectRequestBody.t)
    (db : DB) (c : AuthChallenge.t) :
  wellFormed req = true ->
  lookup req db = Some c ->
  AuthChallenge.walletAddress c = wa_of req ->
  isChallengeExpired (ne_expiryCheck env) (AuthChallenge.expiresAt c) = false ->
  AuthChallenge.isUsed c = true ->
  post_connect env req db
  = (authenticationError "Challenge has already been used", db).
Proof.
  intros Hwf Hlk Hw Hexp Hused. open_wellFormed Hwf. enter_connect Hpres Hvalid Hlk.
  rewrite Hw, String.eqb_refl. cbn [negb]. rewrite Hexp, Hused. reflexivity.
Qed.

(** Gate 6: the signature does not verify. *)
Lemma post_connect_bad_signature (env : ConnectEnv) (req : ConnectRequestBody.t)
    (db : DB) (c : AuthChallenge.t) :
  wellFormed req = true ->
  lookup req db = Some c ->
  AuthChallenge.walletAddress c = wa_of req ->
  isChallengeExpired (ne_expiryCheck env) (AuthChallenge.expiresAt c) = false ->
  AuthChallenge.isUsed c = false ->
  verifySignature (wa_of req) (valueOf (ConnectRequestBody.challenge req))
                  (valueOf (ConnectRequestBody.signature req)) = false ->
  post_connect env req db = (authenticationError "Invalid signature", db).
Proof.
  intros Hwf Hlk Hw Hexp Hused Hsig. open_wellFormed Hwf.
  enter_connect Hpres Hvalid Hlk.
  rewrite Hw, String.eqb_refl. cbn [negb]. rewrite Hexp, Hused, Hsig. reflexivity.
Qed.

(** The verified row after the two updates of a success: marked used and
    linked to the user, still the row of its token. *)
Lemma lookup_marked (env : ConnectEnv) (req : ConnectRequestBody.t)
    (db : DB) (c : AuthChallenge.t) (uid : string) :
  lookup req db = Some c ->
  find (prisma.hasChallenge (valueOf (ConnectRequestBody.challenge req)))
    (map (fun x => if prisma.hasId (AuthChallenge.id c) x
                   then AuthChallenge.linkUser uid x else x)
       (map (fun x => if prisma.hasId (AuthChallenge.id c) x
                      then AuthChallenge.markUsed (ne_usedAt env) x else x)
          (authChallenges db)))
  = Some (AuthChallenge.linkUser uid (AuthChallenge.markUsed (ne_usedAt env) c)).
Proof.
  intros Hlk. unfold lookup in Hlk.
  rewrite !find_map_preserved, Hlk;
    [| intros x; unfold prisma.hasChallenge;
       destruct (prisma.hasId _ x); reflexivity ..].
  cbn [option_map]. unfold prisma.hasId at 2.
  rewrite String.eqb_refl. unfold prisma.hasId.
  cbn [AuthChallenge.markUsed AuthChallenge.id]. rewrite String.eqb_refl.
  reflexivity.
Qed.

(** What the token names after a success: the verified row, now used, or
    nothing when the 24-hour purge removed it. The purge cannot uncover
    another row of the token when the column is unique, and does not remove
    the row when the readings of the call are less than 24 hours apart. *)
Lemma lookup_after_success (env : ConnectEnv) (req : ConnectRequestBody.t)
    (db : DB) (c : AuthChallenge.t) (uid : string) :
  NoDup (map AuthChallenge.challenge (authChallenges db))
  \/ (ne_cleanupNow env - 24 * 60 * 60 * 1000 <= ne_usedAt env)%Z ->
  lookup req db = Some c ->
  let c' := AuthChallenge.linkUser uid (AuthChallenge.markUsed (ne_usedAt env) c) in
  let rows' := challengesAfter env (wa_of req) (AuthChallenge.id c) uid db in
  find (prisma.hasChallenge (valueOf (ConnectRequestBody.challenge req))) rows' = None
  \/ find (prisma.hasChallenge (valueOf (ConnectRequestBody.challenge req))) rows'
     = Some c'.
Proof.
  intros Hor Hlk c' rows'. subst rows'. unfold challengesAfter.
  pose proof (lookup_marked env req db c uid Hlk) as Hmarked. fold c' in Hmarked.
  destruct Hor as [Hnd | Hkeep].
  - change (prisma.hasChallenge (valueOf (ConnectRequestBody.challenge req)))
      with (keyIs AuthChallenge.challenge (valueOf (ConnectRequestBody.challenge req))) in *.
    rewrite (find_key_filter AuthChallenge.challenge _ _ _ c' ); [| | exact Hmarked].
    + destruct (negb _); [now right | now left].
    + rewrite !map_key_preserved; [exact Hnd | |];
        intros x; destruct (prisma.hasId _ x); reflexivity.
  - right. apply find_filter_kept; [exact Hmarked|].
    unfold oldUsedOf, c'.
    cbn [AuthChallenge.linkUser AuthChallenge.markUsed AuthChallenge.usedAt].
    apply negb_true_iff, andb_false_iff. right. apply Z.ltb_ge. exact Hkeep.
Qed.

(** ** The gates of [POST /connect] *)

(** C1 (replay). When [POST /connect] answers 200 to a request, the same
    request submitted again, with any readings of the clock, is answered
    401. This holds in every database whose [challenge] column is unique
    (the column [findUnique] is called on), and in any database at all when
    the readings of the first call are less than 24 hours apart. The row
    the request names, if it is still stored, has [isUsed = true]; and
    unless the second call finds it expired, the answer is the one of the
    [isUsed] gate, "Challenge has already been used", with the database
    left as it was. *)
Theorem replay_rejected (env1 env2 : ConnectEnv) (req : ConnectRequestBody.t)
    (db : DB) :
  NoDup (map AuthChallenge.challenge (authChallenges db))
  \/ (ne_cleanupNow env1 - 24 * 60 * 60 * 1000 <= ne_usedAt env1)%Z ->
  status (fst (post_connect env1 req db)) = 200 ->
  let db1 := snd (post_connect env1 req db) in
  status (fst (post_connect env2 req db1)) = 401
  /\ (forall c', lookup req db1 = Some c' -> AuthChallenge.isUsed c' = true)
  /\ (forall c', lookup req db1 = Some c' ->
        isChallengeExpired (ne_expiryCheck env2) (AuthChallenge.expiresAt c') = false ->
        post_connect env2 req db1
        = (authenticationError "Challenge has already been used", db1)).
Proof.
  intros Hor H200.
  destruct (post_connect_200 _ _ _ H200) as [c [Hacc Hsav]].
  rewrite (post_connect_accepted _ _ _ _ Hacc Hsav). cbn [snd].
  destruct Hacc as (Hwf & Hlk & Hw & _).
  set (uid := User.id (resolvedUser env1 (wa_of req) db)).
  set (db1 := {| authChallenges := _; users := _ |}).
  set (c' := AuthChallenge.linkUser uid (AuthChallenge.markUsed (ne_usedAt env1) c)).
  assert (Hlk1 : lookup req db1 = None \/ lookup req db1 = Some c')
    by exact (lookup_after_success env1 req db c uid Hor Hlk).
  assert (Hw' : AuthChallenge.walletAddress c' = wa_of req) by exact Hw.
  assert (Hused' : AuthChallenge.isUsed c' = true) by reflexivity.
  split; [| split].
  - destruct Hlk1 as [Hnone | Hsome].
    + now rewrite (post_connect_absent _ _ _ Hwf Hnone).
    + destruct (isChallengeExpired (ne_expiryCheck env2) (AuthChallenge.expiresAt c'))
        eqn:Hexp.
      * now rewrite (post_connect_expired _ _ _ _ Hwf Hsome Hw' Hexp).
      * now rewrite (post_connect_used _ _ _ _ Hwf Hsome Hw' Hexp Hused').
  - intros c2 Hc2. destruct Hlk1 as [Hnone | Hsome]; congruence.
  - intros c2 Hc2 Hexp. destruct Hlk1 as [Hnone | Hsome]; [congruence|].
    assert (c2 = c') by congruence. subst c2.
    exact (post_connect_used _ _ _ _ Hwf Hsome Hw' Hexp Hused').
Qed.

(** C3 (expiry). A well-formed request that names a stored challenge of its
    own wallet whose [expiresAt] lies strictly before the clock reading of
    the expiry test is answered 401 "expired", whatever the signature
    verifier returns; the rows with the id of that challenge are deleted,
    every other row and the users are kept; and, the [challenge] column
    being unique, the token is no longer found. *)
Theorem expired_challenge_rejected_and_deleted (env : ConnectEnv)
    (req : ConnectRequestBody.t) (db : DB) (c : AuthChallenge.t) :
  wellFormed req = true ->
  lookup req db = Some c ->
  AuthChallenge.walletAddress c = wa_of req ->
  (AuthChallenge.expiresAt c < ne_expiryCheck env)%Z ->
  let res := fst (post_connect env req db) in
  let db' := snd (post_connect env req db) in
  status res = 401
  /\ res = authenticationError "Challenge has expired. Please request a new one."
  /\ (forall x, In x (authChallenges db') <->
                In x (authChallenges db) /\ AuthChallenge.id x <> AuthChallenge.id c)
  /\ users db' = users db
  /\ (NoDup (map AuthChallenge.challenge (authChallenges db)) ->
      lookup req db' = None).
Proof.
  intros Hwf Hlk Hw Hlt.
  assert (Hexp : isChallengeExpired (ne_expiryCheck env) (AuthChallenge.expiresAt c) = true).
  { unfold isChallengeExpired. apply Z.gtb_lt. exact Hlt. }
  rewrite (post_connect_expired _ _ _ _ Hwf Hlk Hw Hexp). cbn [fst snd].
  split; [reflexivity|]. split; [reflexivity|]. split; [| split; [reflexivity|]].
  - intros x. cbn [authChallenges]. rewrite filter_In, negb_true_iff.
    unfold prisma.hasId. rewrite String.eqb_neq. tauto.
  - intros Hnd. unfold lookup in *. cbn [authChallenges].
    change (prisma.hasChallenge (valueOf (ConnectRequestBody.challenge req)))
      with (keyIs AuthChallenge.challenge (valueOf (ConnectRequestBody.challenge req))) in *.
    rewrite (find_key_filter AuthChallenge.challenge _ _ _ c Hnd Hlk).
    unfold prisma.hasId. now rewrite String.eqb_refl.
Qed.

(** C4 (cross-binding). A well-formed request that names a challenge stored
    for another wallet is answered 401 "Challenge does not match wallet
    address" and the database is left as it was: the answer is the same
    whatever the signature verifier returns, and whether or not the
    challenge is expired or used (an expired one is not deleted on this
    path). *)
Theorem wallet_mismatch_rejected (env : ConnectEnv) (req : ConnectRequestBody.t)
    (db : DB) (c : AuthChallenge.t) :
  wellFormed req = true ->
  lookup req db = Some c ->
  AuthChallenge.walletAddress c <> wa_of req ->
  post_connect env req db
  = (authenticationError "Challenge does not match wallet address", db)
  /\ status (fst (post_connect env req db)) = 401.
Proof.
  intros Hwf Hlk Hw.
  rewrite (post_connect_mismatch _ _ _ _ Hwf Hlk Hw). split; reflexivity.
Qed.

(** C6 (validation before mutation). When one of [walletAddress],
    [challenge], [signature] is missing (or empty) in the body, or the
    wallet address is not a well-formed Stellar address, [POST /connect]
    answers 400 "Validation Error" and both tables are left as they were. *)
Theorem invalid_request_rejected_unchanged (env : ConnectEnv)
    (req : ConnectRequestBody.t) (db : DB) :
  falsy (ConnectRequestBody.walletAddress req) = true
  \/ falsy (ConnectRequestBody.challenge req) = true
  \/ falsy (ConnectRequestBody.signature req) = true
  \/ isValidStellarAddress (wa_of req) = false ->
  status (fst (post_connect env req db)) = 400
  /\ (exists message,
        body (fst (post_connect env req db)) = ErrorBody "Validation Error" message)
  /\ snd (post_connect env req db) = db.
Proof.
  intros Hbad.
  assert (Hwf : wellFormed req = false).
  { open_wellFormedness.
    destruct Hbad as [H | [H | [H | H]]]; rewrite H;
      repeat rewrite ?orb_true_r, ?orb_true_l, ?andb_false_r; reflexivity. }
  destruct (post_connect_invalid env req db Hwf) as [message Hres].
  rewrite Hres. cbn. repeat split. now exists message.
Qed.

(** ** The user of a successful verification *)

Lemma find_hasWallet_usersAfter (env : ConnectEnv) (w : string) (db : DB) :
  find (prisma.hasWallet w) (usersAfter env w db) = Some (resolvedUser env w db).
Proof.
  unfold usersAfter, resolvedUser.
  destruct (find (prisma.hasWallet w) (users db)) as [u0|] eqn:Hu.
  - rewrite find_map_preserved, Hu;
      [| intros x; destruct (prisma.hasWallet w x) eqn:E; exact E].
    apply find_some in Hu. destruct Hu as [_ Hu]. cbn. now rewrite Hu.
  - induction (users db) as [|x l IH]; cbn in *.
    + unfold prisma.hasWallet. cbn. now rewrite String.eqb_refl.
    + destruct (prisma.hasWallet w x); [discriminate | now apply IH].
Qed.

Lemma resolvedUser_walletAddress (env : ConnectEnv) (w : string) (db : DB) :
  User.walletAddress (resolvedUser env w db) = w.
Proof.
  unfold resolvedUser.
  destruct (find (prisma.hasWallet w) (users db)) as [u0|] eqn:Hu; [|reflexivity].
  apply find_some in Hu. destruct Hu as [_ Hu]. now apply String.eqb_eq in Hu.
Qed.

Lemma present_value (v : option string) :
  falsy v = false -> v = Some (valueOf v).
Proof. destruct v; [reflexivity | discriminate]. Qed.

(** C8 (identity binding). Whenever [POST /connect] answers 200, the body
    carries [generateToken (id u) (walletAddress u)] together with [id u]
    and [walletAddress u], where [u] is the user row the upsert resolved for
    the [walletAddress] of the request (a function of that address, of the
    stored users and of the readings of the call only); [u] is the row
    stored for that address afterwards, its address is the address of the
    request, which is the address the challenge is bound to and the one the
    signature verified against. *)
Theorem session_identity_bound (env : ConnectEnv) (req : ConnectRequestBody.t)
    (db : DB) :
  status (fst (post_connect env req db)) = 200 ->
  exists (c : AuthChallenge.t) (u : User.t),
    ConnectRequestBody.walletAddress req = Some (wa_of req)
    /\ lookup req db = Some c
    /\ AuthChallenge.walletAddress c = wa_of req
    /\ verifySignature (wa_of req) (valueOf (ConnectRequestBody.challenge req))
                       (valueOf (ConnectRequestBody.signature req)) = true
    /\ u = resolvedUser env (wa_of req) db
    /\ find (prisma.hasWallet (wa_of req)) (users (snd (post_connect env req db)))
       = Some u
    /\ User.walletAddress u = wa_of req
    /\ body (fst (post_connect env req db))
       = ConnectResponse (generateToken (User.id u) (User.walletAddress u))
           (User.id u) (wa_of req) (User.createdAt u) (ne_now env).
Proof.
  intros H200.
  destruct (post_connect_200 _ _ _ H200) as [c [Hacc Hsav]].
  rewrite (post_connect_accepted _ _ _ _ Hacc Hsav). cbn [fst snd body json users].
  destruct Hacc as (Hwf & Hlk & Hw & _ & _ & Hsig).
  open_wellFormed Hwf.
  apply orb_false_iff in Hpres. destruct Hpres as [Hpres _].
  apply orb_false_iff in Hpres. destruct Hpres as [Hpres _].
  exists c, (resolvedUser env (wa_of req) db).
  rewrite resolvedUser_walletAddress.
  repeat split; try assumption.
  - now apply present_value.
  - apply find_hasWallet_usersAfter.
Qed.

(** C10 (strict expiry). [isChallengeExpired] holds exactly when the clock
    reading is strictly after [expiresAt]; at [expiresAt] itself it is
    false, and a verification whose expiry test reads exactly [expiresAt]
    passes that gate: with the challenge unused, the signature valid and
    the user row storable, it is answered 200. *)
Theorem expiry_is_strict :
  (forall now expiresAt : Z,
     isChallengeExpired now expiresAt = true <-> (expiresAt < now)%Z)
  /\ (forall t : Z, isChallengeExpired t t = false)
  /\ (forall (env : ConnectEnv) (req : ConnectRequestBody.t) (db : DB)
             (c : AuthChallenge.t),
        wellFormed req = true ->
        lookup req db = Some c ->
        AuthChallenge.walletAddress c = wa_of req ->
        ne_expiryCheck env = AuthChallenge.expiresAt c ->
        AuthChallenge.isUsed c = false ->
        verifySignature (wa_of req) (valueOf (ConnectRequestBody.challenge req))
                        (valueOf (ConnectRequestBody.signature req)) = true ->
        userSavable env (wa_of req) db = true ->
        status (fst (post_connect env req db)) = 200).
Proof.
  split; [| split].
  - intros now expiresAt. unfold isChallengeExpired. apply Z.gtb_lt.
  - intros t. unfold isChallengeExpired. rewrite Z.gtb_ltb. apply Z.ltb_irrefl.
  - intros env req db c Hwf Hlk Hw Hat Hused Hsig Hsav.
    assert (Hacc : accepted env req db c).
    { repeat split; try assumption.
      rewrite Hat. unfold isChallengeExpired.
      rewrite Z.gtb_ltb. apply Z.ltb_irrefl. }
    now rewrite (post_connect_accepted _ _ _ _ Hacc Hsav).
Qed.

(** ** The table of users across operations *)

(** A request that passes every gate while the generated user id is taken:
    the creation rejects, after the challenge was marked used. *)
Lemma post_connect_unsavable (env : ConnectEnv) (req : ConnectRequestBody.t)
    (db : DB) (c : AuthChallenge.t) :
  accepted env req db c ->
  userSavable env (wa_of req) db = false ->
  post_connect env req db
  = (internalError "Failed to authenticate wallet",
     {| authChallenges :=
          map (fun x => if prisma.hasId (AuthChallenge.id c) x
                        then AuthChallenge.markUsed (ne_usedAt env) x else x)
              (authChallenges db);
        users := users db |}).
Proof.
  intros (Hwf & Hlk & Hw & Hexp & Hused & Hsig) Hsav.
  destruct (find_hasId_of_lookup _ _ _ Hlk) as [c1 Hc1].
  open_wellFormed Hwf. enter_connect Hpres Hvalid Hlk.
  rewrite Hw, String.eqb_refl. cbn [negb]. rewrite Hexp, Hused, Hsig. cbn [negb].
  unfold prisma.authChallenge_update at 1. rewrite Hc1.
  unfold prisma.user_findUnique. cbn [users prisma.withChallenges].
  unfold userSavable in Hsav.
  destruct (find (prisma.hasWallet (wa_of req)) (users db)) as [u0|] eqn:Hu;
    [discriminate|].
  apply negb_false_iff in Hsav.
  unfold prisma.user_create. cbn [users prisma.withChallenges].
  rewrite Hsav. reflexivity.
Qed.

(** Whatever the answer, [POST /connect] leaves the users as they were or
    performs the upsert, and the upsert goes with the answer 200. *)
Lemma post_connect_users (env : ConnectEnv) (req : ConnectRequestBody.t) (db : DB) :
  users (snd (post_connect env req db)) = users db
  \/ (status (fst (post_connect env req db)) = 200
      /\ users (snd (post_connect env req db)) = usersAfter env (wa_of req) db).
Proof.
  destruct (wellFormed req) eqn:Hwf.
  2:{ destruct (post_connect_invalid env req db Hwf) as [m Hm].
      rewrite Hm. now left. }
  destruct (lookup req db) as [c|] eqn:Hlk.
  2:{ rewrite (post_connect_absent _ _ _ Hwf Hlk). now left. }
  destruct (string_dec (AuthChallenge.walletAddress c) (wa_of req)) as [Hw|Hw].
  2:{ rewrite (post_connect_mismatch _ _ _ _ Hwf Hlk Hw). now left. }
  destruct (isChallengeExpired (ne_expiryCheck env) (AuthChallenge.expiresAt c))
    eqn:Hexp.
  { rewrite (post_connect_expired _ _ _ _ Hwf Hlk Hw Hexp). now left. }
  destruct (AuthChallenge.isUsed c) eqn:Hused.
  { rewrite (post_connect_used _ _ _ _ Hwf Hlk Hw Hexp Hused). now left. }
  destruct (verifySignature (wa_of req) (valueOf (ConnectRequestBody.challenge req))
              (valueOf (ConnectRequestBody.signature req))) eqn:Hsig.
  2:{ rewrite (post_connect_bad_signature _ _ _ _ Hwf Hlk Hw Hexp Hused Hsig).
      now left. }
  assert (Hacc : accepted env req db c) by (repeat split; assumption).
  destruct (userSavable env (wa_of req) db) eqn:Hsav.
  - rewrite (post_connect_accepted _ _ _ _ Hacc Hsav). right. split; reflexivity.
  - rewrite (post_connect_unsavable _ _ _ _ Hacc Hsav). now left.
Qed.

Lemma loginLe_refl (a : option Z) : loginLe a a.
Proof. destruct a; cbn; [apply Z.le_refl | exact I]. Qed.

Lemma loginLe_trans (a b c : option Z) : loginLe a b -> loginLe b c -> loginLe a c.
Proof.
  destruct a, b, c; cbn; try tauto. apply Z.le_trans.
Qed.

Lemma succeeds_refl (rows : list User.t) : succeeds rows rows.
Proof.
  intros u Hin. exists u. repeat split; [exact Hin | apply loginLe_refl].
Qed.

Lemma succeeds_trans (a b c : list User.t) :
  succeeds a b -> succeeds b c -> succeeds a c.
Proof.
  intros Hab Hbc u Hin.
  destruct (Hab u Hin) as (v & Hv & Hid & Hw & Hc & Hle).
  destruct (Hbc v Hv) as (w & Hwin & Hid' & Hw' & Hc' & Hle').
  exists w. repeat split; try congruence.
  eapply loginLe_trans; eassumption.
Qed.

Lemma usersAfter_NoDup (env : ConnectEnv) (w : string) (db : DB) :
  NoDup (map User.walletAddress (users db)) ->
  NoDup (map User.walletAddress (usersAfter env w db)).
Proof.
  intros Hnd. unfold usersAfter.
  destruct (find (prisma.hasWallet w) (users db)) as [u0|] eqn:Hu.
  - rewrite map_key_preserved; [exact Hnd|].
    intros x. destruct (prisma.hasWallet w x); reflexivity.
  - rewrite map_app. apply NoDup_app; [exact Hnd | repeat constructor; intros [] |].
    intros a Hin [Ha | []]. cbn in Ha. subst a.
    apply in_map_iff in Hin. destruct Hin as (x & Hx & Hin).
    pose proof (find_none _ _ Hu x Hin) as Hno.
    unfold prisma.hasWallet in Hno. rewrite Hx, String.eqb_refl in Hno.
    discriminate.
Qed.

Lemma usersAfter_succeeds (env : ConnectEnv) (w : string) (db : DB) :
  loginsUpTo (ne_now env) (users db) ->
  succeeds (users db) (usersAfter env w db).
Proof.
  intros Hup u Hin. unfold usersAfter.
  destruct (find (prisma.hasWallet w) (users db)) as [u0|] eqn:Hu.
  - exists (if prisma.hasWallet w u then User.setLastLoginAt (ne_now env) u else u).
    split; [apply in_map_iff; now exists u|].
    destruct (prisma.hasWallet w u); cbn; repeat split; try apply loginLe_refl.
    destruct (User.lastLoginAt u) as [t|] eqn:Ht; cbn; [|exact I].
    exact (Hup u t Hin Ht).
  - exists u. repeat split; [apply in_or_app; now left | apply loginLe_refl].
Qed.

Lemma usersAfter_loginsUpTo (env : ConnectEnv) (w : string) (db : DB) :
  loginsUpTo (ne_now env) (users db) ->
  loginsUpTo (ne_now env) (usersAfter env w db).
Proof.
  intros Hup u t Hin Ht. unfold usersAfter in Hin.
  destruct (find (prisma.hasWallet w) (users db)) as [u0|] eqn:Hu.
  - apply in_map_iff in Hin. destruct Hin as (x & Hx & Hin).
    destruct (prisma.hasWallet w x); subst u.
    + cbn in Ht. injection Ht as <-. apply Z.le_refl.
    + exact (Hup x t Hin Ht).
  - apply in_app_or in Hin. destruct Hin as [Hin | [Hnew | []]].
    + exact (Hup u t Hin Ht).
    + subst u. cbn in Ht. injection Ht as <-. apply Z.le_refl.
Qed.

Lemma loginsUpTo_later (t t' : Z) (rows : list User.t) :
  (t <= t')%Z -> loginsUpTo t rows -> loginsUpTo t' rows.
Proof.
  intros Hle Hup u at_ Hin Hat. pose proof (Hup u at_ Hin Hat). lia.
Qed.

(** One verification keeps the invariants of the table of users. *)
Lemma post_connect_users_invariant (env : ConnectEnv) (req : ConnectRequestBody.t)
    (db : DB) :
  NoDup (map User.walletAddress (users db)) ->
  loginsUpTo (ne_now env) (users db) ->
  let rows' := users (snd (post_connect env req db)) in
  NoDup (map User.walletAddress rows')
  /\ loginsUpTo (ne_now env) rows'
  /\ succeeds (users db) rows'.
Proof.
  intros Hnd Hup rows'. subst rows'.
  destruct (post_connect_users env req db) as [Hsame | [_ Hafter]].
  - rewrite Hsame. repeat split; [assumption | assumption | apply succeeds_refl].
  - rewrite Hafter. repeat split.
    + now apply usersAfter_NoDup.
    + now apply usersAfter_loginsUpTo.
    + now apply usersAfter_succeeds.
Qed.

(** Any sequence of operations keeps them, by induction on the sequence. *)
Lemma serve_users_invariant (ops : list Operation) :
  forall (t : Z) (db : DB),
    NoDup (map User.walletAddress (users db)) ->
    loginsUpTo t (users db) ->
    clockOrdered t ops ->
    let rows' :=
      users (serve isValidStellarAddress verifySignature generateToken LocalTZA
               ops db) in
    NoDup (map User.walletAddress rows') /\ succeeds (users db) rows'.
Proof.
  induction ops as [|op later IH]; intros t db Hnd Hup Hclock; cbn [serve].
  - split; [exact Hnd | apply succeeds_refl].
  - destruct op as [env req | env req]; cbn [perform clockOrdered] in *.
    + specialize (IH t (snd (post_challenge isValidStellarAddress LocalTZA env req db))).
      cbn zeta in IH. rewrite post_challenge_users in IH.
      exact (IH Hnd Hup Hclock).
    + destruct Hclock as [Hle Hclock].
      pose proof (loginsUpTo_later _ _ _ Hle Hup) as Hup'.
      destruct (post_connect_users_invariant env req db Hnd Hup')
        as (Hnd1 & Hup1 & Hsucc1).
      destruct (IH (ne_now env) _ Hnd1 Hup1 Hclock) as [Hnd2 Hsucc2].
      split; [exact Hnd2 | exact (succeeds_trans _ _ _ Hsucc1 Hsucc2)].
Qed.

(** C9 (user upsert), as the code has it. (1) When [POST /connect] answers
    200 in a database with one user per address, the users are upserted by
    the address of the request: if none has it, one row is appended with
    that address, [lastLoginAt = now] and the [createdAt] the store stamps
    at insertion (the handler passes none); otherwise the existing row
    gets [lastLoginAt = now] and keeps its id, address and [createdAt],
    and no other row changes; afterwards exactly one user has that
    address. (2) Across any sequence of operations of the subsystem, served
    one after the other, whose readings of [now] do not go back, there
    remains one user per address, and every user is kept with the same id
    and address and a [lastLoginAt] that did not decrease. *)
Theorem user_upsert_invariants :
  (forall (env : ConnectEnv) (req : ConnectRequestBody.t) (db : DB),
     NoDup (map User.walletAddress (users db)) ->
     status (fst (post_connect env req db)) = 200 ->
     let rows' := users (snd (post_connect env req db)) in
     match find (prisma.hasWallet (wa_of req)) (users db) with
     | None =>
         exists u, rows' = (users db ++ [u])%list
           /\ User.walletAddress u = wa_of req
           /\ User.createdAt u = ne_createdAt env
           /\ User.lastLoginAt u = Some (ne_now env)
     | Some u0 =>
         rows' = map (fun u => if prisma.hasWallet (wa_of req) u
                               then User.setLastLoginAt (ne_now env) u else u)
                     (users db)
         /\ exists u, find (prisma.hasWallet (wa_of req)) rows' = Some u
              /\ User.lastLoginAt u = Some (ne_now env)
              /\ User.walletAddress u = User.walletAddress u0
              /\ User.id u = User.id u0
              /\ User.createdAt u = User.createdAt u0
     end
     /\ List.length (filter (prisma.hasWallet (wa_of req)) rows') = 1%nat)
  /\ (forall (t : Z) (ops : list Operation) (db : DB),
        NoDup (map User.walletAddress (users db)) ->
        loginsUpTo t (users db) ->
        clockOrdered t ops ->
        let rows' :=
          users (serve isValidStellarAddress verifySignature generateToken
                   LocalTZA ops db) in
        NoDup (map User.walletAddress rows') /\ succeeds (users db) rows').
Proof.
  split.
  - intros env req db Hnd H200 rows'. subst rows'.
    destruct (post_connect_200 _ _ _ H200) as [c [Hacc Hsav]].
    rewrite (post_connect_accepted _ _ _ _ Hacc Hsav). cbn [snd users].
    pose proof (find_hasWallet_usersAfter env (wa_of req) db) as Hfound.
    pose proof (usersAfter_NoDup env (wa_of req) db Hnd) as Hnd'.
    split.
    + unfold usersAfter, resolvedUser in *.
      destruct (find (prisma.hasWallet (wa_of req)) (users db)) as [u0|] eqn:Hu.
      * split; [reflexivity|].
        exists (User.setLastLoginAt (ne_now env) u0).
        repeat split. exact Hfound.
      * exists (createdUser env (wa_of req)). repeat split.
    + change (prisma.hasWallet (wa_of req))
        with (keyIs User.walletAddress (wa_of req)) in *.
      now rewrite (find_key_unique_row User.walletAddress _ _ _ Hnd' Hfound).
  - intros t ops db Hnd Hup Hclock. exact (serve_users_invariant ops t db Hnd Hup Hclock).
Qed.

End RouteFacts.

(* ===================================================================== *)
(** * Concurrent verifications *)
(* ===================================================================== *)

Section Interleavings.

Variable isValidStellarAddress : string -> bool.
Variable verifySignature : string -> string -> string -> bool.
Variable generateToken : string -> string -> string.

Local Abbreviation step :=
  (connect_step isValidStellarAddress verifySignature generateToken).
Local Abbreviation steps :=
  (connect_steps isValidStellarAddress verifySignature generateToken).
Local Abbreviation run :=
  (interleave isValidStellarAddress verifySignature generateToken).
Local Abbreviation accepted := (accepted isValidStellarAddress verifySignature).
Local Abbreviation wa_of req := (valueOf (ConnectRequestBody.walletAddress req)).

Lemma interleave_app (s1 s2 : list nat) (pool : list Execution) (db : DB) :
  run (s1 ++ s2) pool db
  = run s2 (fst (run s1 pool db)) (snd (run s1 pool db)).
Proof.
  revert pool db. induction s1 as [|i s1 IH]; intros pool db; [reflexivity|].
  cbn [app interleave].
  destruct (stepAt isValidStellarAddress verifySignature generateToken i pool db)
    as [pool' db'].
  apply IH.
Qed.

(** The first execution of the pool runs [n] steps in a row. *)
Lemma interleave_first (n : nat) (ex : Execution) (rest : list Execution) (db : DB) :
  run (repeat 0%nat n) (ex :: rest) db
  = ({| ex_env := ex_env ex;
        ex_task := fst (steps n (ex_env ex) (ex_task ex) db) |} :: rest,
     snd (steps n (ex_env ex) (ex_task ex) db)).
Proof.
  revert ex db. induction n as [|n IH]; intros [env task] db.
  - reflexivity.
  - cbn [repeat interleave stepAt connect_steps ex_env ex_task].
    destruct (step env task db) as [task' db']. apply IH.
Qed.

(** The second execution of the pool runs [n] steps in a row. *)
Lemma interleave_second (n : nat) (ex0 ex : Execution) (rest : list Execution)
    (db : DB) :
  run (repeat 1%nat n) (ex0 :: ex :: rest) db
  = (ex0 :: {| ex_env := ex_env ex;
               ex_task := fst (steps n (ex_env ex) (ex_task ex) db) |}
         :: rest,
     snd (steps n (ex_env ex) (ex_task ex) db)).
Proof.
  revert ex db. induction n as [|n IH]; intros [env task] db.
  - reflexivity.
  - cbn [repeat interleave stepAt connect_steps ex_env ex_task].
    destruct (step env task db) as [task' db']. apply IH.
Qed.

(** Two executions resumed one after the other are two calls of the
    handler, the second on the database the first leaves. *)
Lemma one_after_the_other (env1 env2 : ConnectEnv)
    (req1 req2 : ConnectRequestBody.t) (db : DB) :
  let first := post_connect isValidStellarAddress verifySignature generateToken
                 env1 req1 db in
  let second := post_connect isValidStellarAddress verifySignature generateToken
                  env2 req2 (snd first) in
  run (repeat 0%nat 7 ++ repeat 1%nat 7)%list
      [ {| ex_env := env1; ex_task := AtStart req1 |};
        {| ex_env := env2; ex_task := AtStart req2 |} ] db
  = ([ {| ex_env := env1; ex_task := Responded (fst first) |};
       {| ex_env := env2; ex_task := Responded (fst second) |} ],
     snd second).
Proof.
  intros first second. subst first second.
  rewrite interleave_app, interleave_first. cbn [fst snd ex_env ex_task].
  rewrite connect_steps_post_connect. cbn [fst snd].
  rewrite interleave_second. cbn [fst snd ex_env ex_task].
  rewrite connect_steps_post_connect. reflexivity.
Qed.

(** The first step of a well-formed request reads the challenge. *)
Lemma step_read (env : ConnectEnv) (req : ConnectRequestBody.t) (db : DB) :
  wellFormed isValidStellarAddress req = true ->
  step env (AtStart req) db
  = (AtFound (wa_of req) (valueOf (ConnectRequestBody.challenge req))
       (valueOf (ConnectRequestBody.signature req)) (lookup req db), db).
Proof.
  intros Hwf. unfold wellFormed in Hwf.
  apply andb_true_iff in Hwf. destruct Hwf as [Hpres Hvalid].
  apply negb_true_iff in Hpres.
  cbn [connect_step]. rewrite Hpres, Hvalid. reflexivity.
Qed.

(** After the read, the execution decides on the row it holds, not on the
    stored one: with a snapshot [c] that passes the gates, it answers 200 in
    any database that still has a row with the id of [c], whatever the
    [isUsed] of that row has become in the meantime. *)
Lemma steps_after_read (env : ConnectEnv) (w ch sg : string)
    (c : AuthChallenge.t) (db : DB) :
  AuthChallenge.walletAddress c = w ->
  isChallengeExpired (ne_expiryCheck env) (AuthChallenge.expiresAt c) = false ->
  AuthChallenge.isUsed c = false ->
  verifySignature w ch sg = true ->
  (exists row, find (prisma.hasId (AuthChallenge.id c)) (authChallenges db) = Some row) ->
  userSavable env w db = true ->
  let u := resolvedUser env w db in
  steps 6 env (AtFound w ch sg (Some c)) db
  = (Responded (json 200 (ConnectResponse (generateToken (User.id u) w)
                            (User.id u) w (User.createdAt u) (ne_now env))),
     {| authChallenges := challengesAfter env w (AuthChallenge.id c) (User.id u) db;
        users := usersAfter env w db |}).
Proof.
  intros Hw Hexp Hused Hsig [row Hrow] Hsav.
  cbn [connect_steps connect_step].
  rewrite Hw, String.eqb_refl. cbn [negb]. rewrite Hexp, Hused, Hsig.
  cbn [negb connect_step].
  unfold awaited at 1. unfold prisma.authChallenge_update at 1. rewrite Hrow.
  cbn [connect_step].
  unfold awaited at 1. unfold prisma.user_findUnique.
  cbn [users prisma.withChallenges connect_step].
  unfold resolvedUser, usersAfter, userSavable, challengesAfter in *.
  destruct (find (prisma.hasWallet w) (users db)) as [u0|] eqn:Hu.
  - unfold awaited at 1. unfold prisma.user_update.
    cbn [users prisma.withChallenges]. rewrite Hu. cbn [connect_step].
    unfold awaited at 1. unfold prisma.authChallenge_update.
    cbn [authChallenges prisma.withChallenges prisma.withUsers users].
    rewrite find_map_preserved by (intros x; apply hasId_markUsed).
    rewrite Hrow. cbn [option_map connect_step].
    unfold awaited, prisma.authChallenge_deleteMany.
    cbn [authChallenges prisma.withChallenges prisma.withUsers users
         User.setLastLoginAt User.id User.walletAddress User.createdAt
         User.lastLoginAt].
    apply find_some in Hu. destruct Hu as [_ Hu]. unfold prisma.hasWallet in Hu.
    apply String.eqb_eq in Hu. rewrite Hu. reflexivity.
  - unfold awaited at 1. unfold prisma.user_create.
    cbn [users prisma.withChallenges].
    apply negb_true_iff in Hsav. rewrite Hsav.
    rewrite (find_existsb (prisma.hasWallet w)), Hu. cbn [orb connect_step].
    unfold awaited at 1. unfold prisma.authChallenge_update.
    cbn [authChallenges prisma.withChallenges prisma.withUsers users].
    rewrite find_map_preserved by (intros x; apply hasId_markUsed).
    rewrite Hrow. cbn [option_map connect_step].
    unfold awaited, prisma.authChallenge_deleteMany.
    cbn [authChallenges prisma.withChallenges prisma.withUsers users
         createdUser User.id User.walletAddress User.createdAt User.lastLoginAt].
    reflexivity.
Qed.

(** The row a verification has just marked used stays in the table when the
    24-hour purge of the same execution does not reach it. *)
Lemma marked_row_kept (env : ConnectEnv) (w uid : string) (c : AuthChallenge.t)
    (db : DB) :
  In c (authChallenges db) ->
  (ne_cleanupNow env - 24 * 60 * 60 * 1000 <= ne_usedAt env)%Z ->
  exists row,
    find (prisma.hasId (AuthChallenge.id c))
         (challengesAfter env w (AuthChallenge.id c) uid db) = Some row.
Proof.
  intros Hin Hkeep.
  apply (find_In_some _ _
           (AuthChallenge.linkUser uid (AuthChallenge.markUsed (ne_usedAt env) c))).
  - unfold challengesAfter. apply filter_In. split.
    + apply in_map_iff.
      exists (AuthChallenge.markUsed (ne_usedAt env) c). split.
      * unfold prisma.hasId. cbn [AuthChallenge.markUsed AuthChallenge.id].
        now rewrite String.eqb_refl.
      * apply in_map_iff. exists c. split; [|exact Hin].
        unfold prisma.hasId. now rewrite String.eqb_refl.
    + unfold oldUsedOf.
      cbn [AuthChallenge.linkUser AuthChallenge.markUsed AuthChallenge.usedAt].
      apply negb_true_iff, andb_false_iff. right. apply Z.ltb_ge. exact Hkeep.
  - unfold prisma.hasId. apply String.eqb_refl.
Qed.

(** Two executions of a request that would be accepted alone, the second
    reading the challenge before the first writes it, are both answered
    200: the test of [isUsed] and the write of [isUsed] are apart, and the
    write is unconditional. *)
Lemma racing_executions_both_accepted (env1 env2 : ConnectEnv)
    (req : ConnectRequestBody.t) (db : DB) (c : AuthChallenge.t) :
  accepted env1 req db c ->
  isChallengeExpired (ne_expiryCheck env2) (AuthChallenge.expiresAt c) = false ->
  userSavable env1 (wa_of req) db = true ->
  (ne_cleanupNow env1 - 24 * 60 * 60 * 1000 <= ne_usedAt env1)%Z ->
  map responseStatus
    (fst (run ([0%nat; 1%nat] ++ repeat 0%nat 6 ++ repeat 1%nat 6)%list
            [ {| ex_env := env1; ex_task := AtStart req |};
              {| ex_env := env2; ex_task := AtStart req |} ] db))
  = [Some 200; Some 200].
Proof.
  intros (Hwf & Hlk & Hw & Hexp1 & Hused & Hsig) Hexp2 Hsav Hkeep.
  rewrite interleave_app.
  cbn [interleave stepAt ex_env ex_task].
  rewrite !(step_read _ _ _ Hwf), Hlk. cbn [fst snd].
  rewrite interleave_app, interleave_first. cbn [fst snd ex_env ex_task].
  assert (Hrow : exists row,
            find (prisma.hasId (AuthChallenge.id c)) (authChallenges db) = Some row)
    by exact (find_hasId_of_lookup _ _ _ Hlk).
  rewrite (steps_after_read env1 _ _ _ c db Hw Hexp1 Hused Hsig Hrow Hsav).
  cbn [fst snd]. rewrite interleave_second. cbn [fst snd ex_env ex_task].
  rewrite (steps_after_read env2 _ _ _ c _ Hw Hexp2 Hused Hsig).
  - reflexivity.
  - cbn [authChallenges]. apply marked_row_kept; [|exact Hkeep].
    apply find_some in Hlk. tauto.
  - unfold userSavable. cbn [users].
    now rewrite find_hasWallet_usersAfter.
Qed.

(** One turn of the event loop, for the first and for the second execution
    of the pool. *)
Lemma interleave_turn_first (later : list nat) (ex : Execution)
    (rest : list Execution) (db : DB) :
  run (0%nat :: later) (ex :: rest) db
  = run later
      ({| ex_env := ex_env ex;
          ex_task := fst (step (ex_env ex) (ex_task ex) db) |} :: rest)
      (snd (step (ex_env ex) (ex_task ex) db)).
Proof.
  cbn [interleave stepAt]. now destruct (step (ex_env ex) (ex_task ex) db).
Qed.

Lemma interleave_turn_second (later : list nat) (ex0 ex : Execution)
    (rest : list Execution) (db : DB) :
  run (1%nat :: later) (ex0 :: ex :: rest) db
  = run later
      (ex0 :: {| ex_env := ex_env ex;
                 ex_task := fst (step (ex_env ex) (ex_task ex) db) |} :: rest)
      (snd (step (ex_env ex) (ex_task ex) db)).
Proof.
  cbn [interleave stepAt]. now destruct (step (ex_env ex) (ex_task ex) db).
Qed.

(** The steps of an execution whose request passes every gate. *)
Lemma step_gates (env : ConnectEnv) (w ch sg : string) (c : AuthChallenge.t)
    (db : DB) :
  AuthChallenge.walletAddress c = w ->
  isChallengeExpired (ne_expiryCheck env) (AuthChallenge.expiresAt c) = false ->
  AuthChallenge.isUsed c = false ->
  step env (AtFound w ch sg (Some c)) db
  = (AtVerified w c (verifySignature w ch sg), db).
Proof.
  intros Hw Hexp Hused. cbn [connect_step].
  rewrite Hw, String.eqb_refl. cbn [negb]. now rewrite Hexp, Hused.
Qed.

Lemma step_mark (env : ConnectEnv) (w : string) (c row : AuthChallenge.t) (db : DB) :
  find (prisma.hasId (AuthChallenge.id c)) (authChallenges db) = Some row ->
  step env (AtVerified w c true) db
  = (AtMarked w c,
     prisma.withChallenges db
       (map (fun x => if prisma.hasId (AuthChallenge.id c) x
                      then AuthChallenge.markUsed (ne_usedAt env) x else x)
            (authChallenges db))).
Proof.
  intros Hrow. cbn [connect_step negb].
  unfold awaited, prisma.authChallenge_update. now rewrite Hrow.
Qed.

Lemma step_user_read (env : ConnectEnv) (w : string) (c : AuthChallenge.t) (db : DB) :
  step env (AtMarked w c) db
  = (AtUserFound w c (find (prisma.hasWallet w) (users db)), db).
Proof. reflexivity. Qed.

Lemma step_create (env : ConnectEnv) (w : string) (c : AuthChallenge.t) (db : DB) :
  existsb (prisma.hasUserId (ne_newUserId env)) (users db) = false ->
  existsb (prisma.hasWallet w) (users db) = false ->
  step env (AtUserFound w c None) db
  = (AtUserSaved w c (createdUser env w),
     prisma.withUsers db (users db ++ [createdUser env w])).
Proof.
  intros Hid Hwallet. cbn [connect_step].
  unfold awaited, prisma.user_create. now rewrite Hid, Hwallet.
Qed.

(** The creation of a second row for a wallet rejects, and the handler
    answers 500. *)
Lemma step_create_rejected (env : ConnectEnv) (w : string) (c : AuthChallenge.t)
    (db : DB) :
  existsb (prisma.hasWallet w) (users db) = true ->
  step env (AtUserFound w c None) db
  = (Responded (internalError "Failed to authenticate wallet"), db).
Proof.
  intros Hwallet. cbn [connect_step].
  unfold awaited, prisma.user_create. rewrite Hwallet.
  now rewrite orb_true_r.
Qed.

Lemma step_link (env : ConnectEnv) (w : string) (c row : AuthChallenge.t)
    (u : User.t) (db : DB) :
  find (prisma.hasId (AuthChallenge.id c)) (authChallenges db) = Some row ->
  step env (AtUserSaved w c u) db
  = (AtLinked w c u,
     prisma.withChallenges db
       (map (fun x => if prisma.hasId (AuthChallenge.id c) x
                      then AuthChallenge.linkUser (User.id u) x else x)
            (authChallenges db))).
Proof.
  intros Hrow. cbn [connect_step].
  unfold awaited, prisma.authChallenge_update. now rewrite Hrow.
Qed.

(** A row with a given id is still there after rows have been rewritten
    by a function that keeps ids. *)
Lemma find_hasId_rewritten (i j : string) (g : AuthChallenge.t -> AuthChallenge.t)
    (rows : list AuthChallenge.t) (row : AuthChallenge.t) :
  (forall x, AuthChallenge.id (g x) = AuthChallenge.id x) ->
  find (prisma.hasId i) rows = Some row ->
  find (prisma.hasId i) (map (fun c => if prisma.hasId j c then g c else c) rows)
  = Some (if prisma.hasId j row then g row else row).
Proof.
  intros Hid Hrow. rewrite find_map_preserved, Hrow; [reflexivity|].
  intros x. destruct (prisma.hasId j x); [|reflexivity].
  unfold prisma.hasId. now rewrite Hid.
Qed.

(** Two first logins of one wallet, each with a challenge of its own or
    both with the same one, that both look for the user before either
    creates it: the first creation stores the row, the second rejects on
    the unique wallet address and its request is answered 500. *)
Lemma racing_creations_one_row (env1 env2 : ConnectEnv)
    (req1 req2 : ConnectRequestBody.t) (db : DB) (c1 c2 : AuthChallenge.t) :
  accepted env1 req1 db c1 ->
  accepted env2 req2 db c2 ->
  wa_of req2 = wa_of req1 ->
  find (prisma.hasWallet (wa_of req1)) (users db) = None ->
  existsb (prisma.hasUserId (ne_newUserId env1)) (users db) = false ->
  let final := run [0; 1; 0; 1; 0; 1; 0; 1; 0; 1; 0; 0]%nat
                 [ {| ex_env := env1; ex_task := AtStart req1 |};
                   {| ex_env := env2; ex_task := AtStart req2 |} ] db in
  map responseStatus (fst final) = [Some 200; Some 500]
  /\ users (snd final) = (users db ++ [createdUser env1 (wa_of req1)])%list
  /\ (forall c, In c (authChallenges (snd final)) ->
                AuthChallenge.id c = AuthChallenge.id c2 ->
                AuthChallenge.isUsed c = true).
Proof.
  intros (Hwf1 & Hlk1 & Hw1 & Hexp1 & Hused1 & Hsig1)
         (Hwf2 & Hlk2 & Hw2 & Hexp2 & Hused2 & Hsig2) Hsame Hnone Hfresh.
  destruct (find_hasId_of_lookup _ _ _ Hlk1) as [r1 Hr1].
  destruct (find_hasId_of_lookup _ _ _ Hlk2) as [r2 Hr2].
  assert (Habsent : existsb (prisma.hasWallet (wa_of req1)) (users db) = false)
    by now rewrite (find_existsb (prisma.hasWallet (wa_of req1))), Hnone.
  cbv zeta.
  (* both read their challenge *)
  rewrite interleave_turn_first. cbn [ex_env ex_task].
  rewrite (step_read _ _ _ Hwf1), Hlk1. cbn [fst snd].
  rewrite interleave_turn_second. cbn [ex_env ex_task].
  rewrite (step_read _ _ _ Hwf2), Hlk2. cbn [fst snd].
  (* both pass the gates *)
  rewrite interleave_turn_first. cbn [ex_env ex_task].
  rewrite (step_gates _ _ _ _ _ _ Hw1 Hexp1 Hused1), Hsig1. cbn [fst snd].
  rewrite interleave_turn_second. cbn [ex_env ex_task].
  rewrite (step_gates _ _ _ _ _ _ Hw2 Hexp2 Hused2), Hsig2. cbn [fst snd].
  (* both mark their challenge used *)
  rewrite interleave_turn_first. cbn [ex_env ex_task].
  rewrite (step_mark _ _ _ _ _ Hr1). cbn [fst snd].
  rewrite interleave_turn_second. cbn [ex_env ex_task].
  erewrite step_mark
    by (cbn [authChallenges prisma.withChallenges];
        apply find_hasId_rewritten; [reflexivity | exact Hr2]).
  cbn [fst snd].
  (* both find no user *)
  rewrite interleave_turn_first. cbn [ex_env ex_task].
  rewrite step_user_read. cbn [fst snd users prisma.withChallenges]. rewrite Hnone.
  rewrite interleave_turn_second. cbn [ex_env ex_task].
  rewrite step_user_read. cbn [fst snd users prisma.withChallenges].
  rewrite Hsame, Hnone.
  (* the first creates the user, the creation of the second rejects *)
  rewrite interleave_turn_first. cbn [ex_env ex_task].
  rewrite step_create by assumption. cbn [fst snd].
  rewrite interleave_turn_second. cbn [ex_env ex_task].
  rewrite step_create_rejected.
  2:{ cbn [users prisma.withUsers prisma.withChallenges].
      rewrite existsb_app. cbn [existsb createdUser]. unfold prisma.hasWallet at 2.
      cbn [User.walletAddress]. rewrite String.eqb_refl. now rewrite orb_true_r. }
  cbn [fst snd].
  (* the first links its challenge and responds *)
  rewrite interleave_turn_first. cbn [ex_env ex_task].
  erewrite step_link.
  2:{ cbn [authChallenges prisma.withChallenges prisma.withUsers].
      apply find_hasId_rewritten; [reflexivity|].
      apply find_hasId_rewritten; [reflexivity | exact Hr1]. }
  cbn [fst snd].
  rewrite interleave_turn_first. cbn [ex_env ex_task interleave fst snd map].
  split; [reflexivity | split; [reflexivity|]].
  intros c Hin Hid. cbn in Hin.
  apply filter_In in Hin. destruct Hin as [Hin _].
  apply in_map_iff in Hin. destruct Hin as (y & <- & Hin).
  apply in_map_iff in Hin. destruct Hin as (z & <- & Hin).
  assert (Hz : prisma.hasId (AuthChallenge.id c2) z = true).
  { unfold prisma.hasId. apply String.eqb_eq. rewrite <- Hid.
    repeat match goal with
           | |- context [if ?b then _ else _] => destruct b
           end; reflexivity. }
  rewrite Hz.
  match goal with
  | |- context [if ?b then _ else _] => destruct b
  end; reflexivity.
Qed.

End Interleavings.

(** Served one after the other, the two executions of the sample request
    answer 200 and then 401. *)
Example sequential_replay_rejected :
  map responseStatus (fst (Sample.interleave Sample.oneAfterTheOther Sample.pool Sample.db0))
  = [Some 200; Some 401].
Proof. vm_compute. reflexivity. Qed.

(** C2 (one success among concurrent verifications) does not hold of the
    handler: it reads the challenge, tests [isUsed] on what it read, and
    later writes [isUsed = true] with an unconditional [update] whose
    outcome it does not inspect. When two executions of the same request
    both read the challenge before either writes it, both answer 200 with a
    session token, and the stored challenge is used once. *)
Theorem concurrent_replay_both_succeed :
  let final := Sample.interleave Sample.racing Sample.pool Sample.db0 in
  map responseStatus (fst final) = [Some 200; Some 200]
  /\ map AuthChallenge.isUsed (authChallenges (snd final)) = [true]
  /\ List.length (users (snd final)) = 1%nat.
Proof. vm_compute. repeat split. Qed.

(* ===================================================================== *)
(** * Concrete runs *)
(* ===================================================================== *)

Ltac by_computation := vm_compute; reflexivity.

Lemma sample_tokens_unique :
  NoDup (map AuthChallenge.challenge (authChallenges Sample.db0)).
Proof. repeat constructor. intros []. Defined.

Lemma sample_wallets_unique :
  NoDup (map User.walletAddress (users Sample.db0)).
Proof. constructor. Defined.

(** The housekeeping purge of [POST /challenge] deletes a used challenge of
    the requesting wallet once it has expired: the purge does not spare
    used rows. *)
Lemma purge_deletes_used_expired :
  let db' := snd (Sample.post_challenge Sample.challengeEnv Sample.challengeRequest
                    Sample.dbUsed) in
  In Sample.usedExpired (authChallenges Sample.dbUsed)
  /\ AuthChallenge.walletAddress Sample.usedExpired = Sample.walletA
  /\ AuthChallenge.isUsed Sample.usedExpired = true
  /\ (AuthChallenge.expiresAt Sample.usedExpired < ce_purgeNow Sample.challengeEnv)%Z
  /\ ~ In Sample.usedExpired (authChallenges db').
Proof.
  cbv zeta. split; [now left|]. split; [reflexivity|]. split; [reflexivity|].
  split; [reflexivity|].
  vm_compute. intros [H | []]. discriminate H.
Qed.

Lemma replay_rejected_witness :
  status (fst (Sample.post_connect Sample.env2 Sample.request
                 (snd (Sample.post_connect Sample.env1 Sample.request Sample.db0))))
  = 401.
Proof.
  apply (replay_rejected Sample.isValidStellarAddress Sample.verifySignature
           Sample.generateToken Sample.env1 Sample.env2 Sample.request Sample.db0).
  - left. exact sample_tokens_unique.
  - by_computation.
Defined.

Lemma expired_challenge_rejected_and_deleted_witness :
  status (fst (Sample.post_connect Sample.envLate Sample.request Sample.db0)) = 401
  /\ lookup Sample.request
       (snd (Sample.post_connect Sample.envLate Sample.request Sample.db0)) = None.
Proof.
  pose proof (expired_challenge_rejected_and_deleted Sample.isValidStellarAddress
                Sample.verifySignature Sample.generateToken Sample.envLate
                Sample.request Sample.db0 Sample.challengeA) as H.
  cbv zeta in H.
  destruct H as (H401 & _ & _ & _ & Hgone).
  - by_computation.
  - by_computation.
  - by_computation.
  - by_computation.
  - split; [exact H401 | exact (Hgone sample_tokens_unique)].
Defined.

Lemma wallet_mismatch_rejected_witness :
  Sample.post_connect Sample.env1 Sample.requestB Sample.db0
  = (authenticationError "Challenge does not match wallet address", Sample.db0).
Proof.
  apply (wallet_mismatch_rejected Sample.isValidStellarAddress
           Sample.verifySignature Sample.generateToken Sample.env1
           Sample.requestB Sample.db0 Sample.challengeA).
  - by_computation.
  - by_computation.
  - vm_compute. discriminate.
Defined.

Lemma invalid_request_rejected_unchanged_witness :
  status (fst (Sample.post_connect Sample.env1 Sample.requestUnsigned Sample.db0)) = 400
  /\ snd (Sample.post_connect Sample.env1 Sample.requestUnsigned Sample.db0) = Sample.db0.
Proof.
  pose proof (invalid_request_rejected_unchanged Sample.isValidStellarAddress
                Sample.verifySignature Sample.generateToken Sample.env1
                Sample.requestUnsigned Sample.db0) as H.
  destruct H as (H400 & _ & Hsame).
  - right. right. left. reflexivity.
  - split; [exact H400 | exact Hsame].
Defined.

Lemma purge_deletes_expired_of_wallet_witness :
  exists kept added,
    authChallenges (snd (Sample.post_challenge Sample.challengeEnv
                           Sample.challengeRequest Sample.dbUsed))
    = (kept ++ added)%list
    /\ kept = filter (fun c => negb (expiredOf Sample.walletA
                                       (ce_purgeNow Sample.challengeEnv) c))
                     (authChallenges Sample.dbUsed).
Proof.
  destruct (purge_deletes_expired_of_wallet Sample.isValidStellarAddress (JS.fixedZone 0)
              Sample.challengeEnv Sample.challengeRequest Sample.dbUsed)
    as (kept & added & Hrows & _ & Hkept & _).
  - reflexivity.
  - by_computation.
  - exists kept, added. split; [exact Hrows | exact Hkept].
Defined.

Lemma session_identity_bound_witness :
  exists u,
    User.walletAddress u = Sample.walletA
    /\ body (fst (Sample.post_connect Sample.env1 Sample.request Sample.db0))
       = ConnectResponse (Sample.generateToken (User.id u) (User.walletAddress u))
           (User.id u) Sample.walletA (User.createdAt u) (ne_now Sample.env1).
Proof.
  destruct (session_identity_bound Sample.isValidStellarAddress
              Sample.verifySignature Sample.generateToken Sample.env1
              Sample.request Sample.db0)
    as (c & u & _ & _ & _ & _ & _ & _ & Hw & Hbody).
  - by_computation.
  - exists u. split; [exact Hw | exact Hbody].
Defined.

Lemma user_upsert_invariants_witness :
  (exists u,
     find (prisma.hasWallet Sample.walletA)
          (users (snd (Sample.post_connect Sample.env1 Sample.request
                         Demo.dbReturning))) = Some u
     /\ User.lastLoginAt u = Some (ne_now Sample.env1)
     /\ User.id u = User.id Demo.returningUser
     /\ User.createdAt u = User.createdAt Demo.returningUser)
  /\ succeeds (users Demo.dbReturning)
       (users (serve Sample.isValidStellarAddress Sample.verifySignature
                 Sample.generateToken (JS.fixedZone 0)
                 [ VerifyAndAuthenticate Sample.env1 Sample.request;
                   IssueChallenge Sample.challengeEnv Sample.challengeRequest;
                   VerifyAndAuthenticate Sample.env2 Sample.request ]
                 Demo.dbReturning)).
Proof.
  assert (Hnd : NoDup (map User.walletAddress (users Demo.dbReturning)))
    by (repeat constructor; intros []).
  destruct (user_upsert_invariants Sample.isValidStellarAddress
              Sample.verifySignature Sample.generateToken (JS.fixedZone 0))
    as [Hstep Hrun].
  split.
  - assert (H200 : status (fst (Sample.post_connect Sample.env1 Sample.request
                                  Demo.dbReturning)) = 200) by by_computation.
    pose proof (Hstep Sample.env1 Sample.request Demo.dbReturning Hnd H200) as H.
    cbv zeta in H. destruct H as [Hup _].
    assert (Hfound : find (prisma.hasWallet
                             (valueOf (ConnectRequestBody.walletAddress Sample.request)))
                          (users Demo.dbReturning) = Some Demo.returningUser)
      by reflexivity.
    rewrite Hfound in Hup. destruct Hup as (_ & u & Hu & Hlast & _ & Hid & Hcreated).
    exists u. repeat split; assumption.
  - apply (Hrun Sample.issuedAt).
    + exact Hnd.
    + intros u at_ [<- | []] Hat. injection Hat as <-. vm_compute. discriminate.
    + cbn. repeat split; vm_compute; discriminate.
Defined.

(** The two places where the users do not behave as C9 has it. A first
    login stores a [createdAt] that is not the handler's [now]: it is the
    store's own stamp. And when the reading of [now] of a later login is
    behind that of an earlier one (the wall clock [new Date()] reads was
    set back), [lastLoginAt] goes back: nothing compares it with the stored
    value. *)
Lemma upsert_stamps_and_last_login_go_their_own_way :
  let first := Sample.post_connect Sample.env1 Sample.request Demo.dbTwoChallenges in
  let second := Sample.post_connect Demo.envEarlier Demo.request2 (snd first) in
  status (fst first) = 200
  /\ status (fst second) = 200
  /\ exists u1 u2,
       users (snd first) = [u1]
       /\ users (snd second) = [u2]
       /\ User.lastLoginAt u1 = Some (ne_now Sample.env1)
       /\ User.createdAt u1 <> ne_now Sample.env1
       /\ User.id u2 = User.id u1
       /\ User.lastLoginAt u2 = Some (ne_now Demo.envEarlier)
       /\ (ne_now Demo.envEarlier < ne_now Sample.env1)%Z.
Proof.
  cbv zeta. split; [by_computation|]. split; [by_computation|].
  eexists _, _. split; [by_computation|]. split; [by_computation|].
  split; [reflexivity|]. split; [vm_compute; discriminate|].
  split; [reflexivity|]. split; [reflexivity|]. reflexivity.
Qed.

Lemma expiry_is_strict_witness :
  isChallengeExpired (AuthChallenge.expiresAt Sample.challengeA)
                     (AuthChallenge.expiresAt Sample.challengeA) = false
  /\ status (fst (Sample.post_connect Sample.envAtExpiry Sample.request Sample.db0))
     = 200.
Proof.
  destruct (expiry_is_strict Sample.isValidStellarAddress Sample.verifySignature
              Sample.generateToken) as (_ & Hat & Hpass).
  split; [apply Hat|].
  apply (Hpass Sample.envAtExpiry Sample.request Sample.db0 Sample.challengeA).
  - by_computation.
  - by_computation.
  - by_computation.
  - by_computation.
  - by_computation.
  - by_computation.
  - by_computation.
Defined.

(* ===================================================================== *)
(** * Further properties of [POST /connect] *)
(* ===================================================================== *)

Section ConnectOutcomes.

Variable isValidStellarAddress : string -> bool.
Variable verifySignature : string -> string -> string -> bool.
Variable generateToken : string -> string -> string.

Local Abbreviation post_connect :=
  (post_connect isValidStellarAddress verifySignature generateToken).
Local Abbreviation accepted := (accepted isValidStellarAddress verifySignature).
Local Abbreviation wellFormed := (wellFormed isValidStellarAddress).
Local Abbreviation wa_of req := (valueOf (ConnectRequestBody.walletAddress req)).
Local Abbreviation signed req :=
  (verifySignature (wa_of req) (valueOf (ConnectRequestBody.challenge req))
                   (valueOf (ConnectRequestBody.signature req))).

Local Abbreviation ConnectOutcome :=
  (ConnectOutcome isValidStellarAddress verifySignature generateToken).

Lemma post_connect_outcome (env : ConnectEnv) (req : ConnectRequestBody.t) (db : DB) :
  ConnectOutcome env req db (post_connect env req db).
Proof.
  destruct (wellFormed req) eqn:Hwf.
  2:{ destruct (post_connect_invalid _ verifySignature generateToken env req db Hwf)
        as [m Hm].
      rewrite Hm. now constructor. }
  destruct (lookup req db) as [c|] eqn:Hlk.
  2:{ rewrite (post_connect_absent _ verifySignature generateToken env _ _ Hwf Hlk).
      now constructor. }
  destruct (string_dec (AuthChallenge.walletAddress c) (wa_of req)) as [Hw|Hw].
  2:{ rewrite (post_connect_mismatch _ verifySignature generateToken env _ _ _ Hwf Hlk Hw).
      now apply EndsMismatch with c. }
  destruct (isChallengeExpired (ne_expiryCheck env) (AuthChallenge.expiresAt c))
    eqn:Hexp.
  { rewrite (post_connect_expired _ verifySignature generateToken _ _ _ _ Hwf Hlk Hw Hexp).
    now constructor. }
  destruct (AuthChallenge.isUsed c) eqn:Hused.
  { rewrite (post_connect_used _ verifySignature generateToken _ _ _ _
               Hwf Hlk Hw Hexp Hused).
    now apply EndsUsed with c. }
  destruct (signed req) eqn:Hsig.
  2:{ rewrite (post_connect_bad_signature _ _ generateToken _ _ _ _
                 Hwf Hlk Hw Hexp Hused Hsig).
      now apply EndsBadSignature with c. }
  assert (Hacc : accepted env req db c) by (repeat split; assumption).
  destruct (userSavable env (wa_of req) db) eqn:Hsav.
  - rewrite (post_connect_accepted _ _ generateToken _ _ _ _ Hacc Hsav).
    now constructor.
  - rewrite (post_connect_unsavable _ _ generateToken _ _ _ _ Hacc Hsav).
    now constructor.
Qed.

(** The session is granted exactly when every gate is passed: a 200 is
    answered if and only if the request is well formed, names a stored
    challenge of its own wallet that is neither expired at the reading of
    the expiry test nor used, carries a signature that verifies, and the
    user row can be stored. *)
Theorem connect_succeeds_iff (env : ConnectEnv) (req : ConnectRequestBody.t)
    (db : DB) :
  status (fst (post_connect env req db)) = 200
  <-> wellFormed req = true
      /\ exists c,
           lookup req db = Some c
           /\ AuthChallenge.walletAddress c = wa_of req
           /\ isChallengeExpired (ne_expiryCheck env) (AuthChallenge.expiresAt c) = false
           /\ AuthChallenge.isUsed c = false
           /\ signed req = true
           /\ userSavable env (wa_of req) db = true.
Proof.
  split.
  - intros H200.
    destruct (post_connect_outcome env req db) as
      [m Hwf | Hwf Hlk | c Hwf Hlk Hw | c Hwf Hlk Hw Hexp | c Hwf Hlk Hw Hexp Hused
       | c Hwf Hlk Hw Hexp Hused Hsig | c Hacc Hsav | c Hacc Hsav];
      try discriminate H200.
    destruct Hacc as (Hwf & Hlk & Hw & Hexp & Hused & Hsig).
    split; [exact Hwf|]. exists c. repeat split; assumption.
  - intros (Hwf & c & Hlk & Hw & Hexp & Hused & Hsig & Hsav).
    assert (Hacc : accepted env req db c) by (repeat split; assumption).
    now rewrite (post_connect_accepted _ _ generateToken _ _ _ _ Hacc Hsav).
Qed.

(** A request answered 400 or 401 writes nothing: the users are as they
    were, no challenge is marked used or changed, and the only rows that
    can go are those with the id of the expired challenge the request
    presented for its own wallet. *)
Theorem rejected_request_effects (env : ConnectEnv) (req : ConnectRequestBody.t)
    (db : DB) :
  status (fst (post_connect env req db)) = 400
  \/ status (fst (post_connect env req db)) = 401 ->
  let db' := snd (post_connect env req db) in
  users db' = users db
  /\ (exists message, body (fst (post_connect env req db)) = ErrorBody
        (if (status (fst (post_connect env req db)) =? 400)%Z
         then "Validation Error" else "Authentication Error") message)
  /\ (authChallenges db' = authChallenges db
      \/ exists c,
           lookup req db = Some c
           /\ AuthChallenge.walletAddress c = wa_of req
           /\ (AuthChallenge.expiresAt c < ne_expiryCheck env)%Z
           /\ authChallenges db'
              = filter (fun x => negb (prisma.hasId (AuthChallenge.id c) x))
                       (authChallenges db)).
Proof.
  intros Hstatus.
  destruct (post_connect_outcome env req db) as
    [m Hwf | Hwf Hlk | c Hwf Hlk Hw | c Hwf Hlk Hw Hexp | c Hwf Hlk Hw Hexp Hused
     | c Hwf Hlk Hw Hexp Hused Hsig | c Hacc Hsav | c Hacc Hsav];
    cbn [fst snd status json validationError authenticationError internalError
         users authChallenges body] in *;
    try (destruct Hstatus; discriminate).
  all: split; [reflexivity|]; split; [eexists; reflexivity|].
  all: try (left; reflexivity).
  right. exists c. repeat split; try assumption.
  unfold isChallengeExpired in Hexp. now apply Z.gtb_lt in Hexp.
Qed.

(** When the user row cannot be created, the answer is 500 and the
    challenge is spent all the same: it was marked used before the users
    were touched, the users are as they were, and the same request sent
    again is answered 401 whatever the clock reads. *)
Theorem failed_user_creation_consumes_challenge (env env2 : ConnectEnv)
    (req : ConnectRequestBody.t) (db : DB) (c : AuthChallenge.t) :
  accepted env req db c ->
  userSavable env (wa_of req) db = false ->
  let db1 := snd (post_connect env req db) in
  status (fst (post_connect env req db)) = 500
  /\ users db1 = users db
  /\ lookup req db1 = Some (AuthChallenge.markUsed (ne_usedAt env) c)
  /\ status (fst (post_connect env2 req db1)) = 401.
Proof.
  intros Hacc Hsav.
  rewrite (post_connect_unsavable _ _ generateToken _ _ _ _ Hacc Hsav).
  cbn [fst snd].
  destruct Hacc as (Hwf & Hlk & Hw & _).
  set (db1 := {| authChallenges := _; users := _ |}).
  assert (Hlk1 : lookup req db1 = Some (AuthChallenge.markUsed (ne_usedAt env) c)).
  { unfold lookup in *. cbn [authChallenges db1].
    rewrite find_map_preserved, Hlk;
      [| intros x; unfold prisma.hasChallenge;
         destruct (prisma.hasId _ x); reflexivity].
    cbn [option_map]. unfold prisma.hasId. now rewrite String.eqb_refl. }
  split; [reflexivity|]. split; [reflexivity|]. split; [exact Hlk1|].
  destruct (isChallengeExpired (ne_expiryCheck env2)
              (AuthChallenge.expiresAt (AuthChallenge.markUsed (ne_usedAt env) c)))
    eqn:Hexp.
  - now rewrite (post_connect_expired _ verifySignature generateToken _ _ _ _
                   Hwf Hlk1 Hw Hexp).
  - now rewrite (post_connect_used _ verifySignature generateToken _ _ _ _
                   Hwf Hlk1 Hw Hexp eq_refl).
Qed.

(** What a successful verification does to the other challenges: a row with
    another id stays, unchanged, unless it is a used row of the same wallet
    whose [usedAt] is more than 24 hours before the reading of the purge;
    in particular every row of another wallet stays. *)
Theorem success_frame (env : ConnectEnv) (req : ConnectRequestBody.t)
    (db : DB) (c : AuthChallenge.t) :
  lookup req db = Some c ->
  status (fst (post_connect env req db)) = 200 ->
  let rows' := authChallenges (snd (post_connect env req db)) in
  let cutoff := (ne_cleanupNow env - 24 * 60 * 60 * 1000)%Z in
  (forall r, In r (authChallenges db) ->
     AuthChallenge.id r <> AuthChallenge.id c ->
     (In r rows' <->
      ~ (AuthChallenge.walletAddress r = wa_of req
         /\ AuthChallenge.isUsed r = true
         /\ exists at_, AuthChallenge.usedAt r = Some at_ /\ (at_ < cutoff)%Z)))
  /\ (forall r, In r (authChallenges db) ->
        AuthChallenge.id r <> AuthChallenge.id c ->
        AuthChallenge.walletAddress r <> wa_of req ->
        In r rows').
Proof.
  intros Hlk H200 rows' cutoff. subst rows'.
  destruct (post_connect_200 _ _ generateToken _ _ _ H200) as [c0 [Hacc Hsav]].
  rewrite (post_connect_accepted _ _ generateToken _ _ _ _ Hacc Hsav).
  cbn [snd authChallenges].
  assert (c0 = c) by (destruct Hacc as (_ & Hlk0 & _); congruence). subst c0.
  set (uid := User.id (resolvedUser env (wa_of req) db)).
  assert (Hother : forall r, In r (authChallenges db) ->
            AuthChallenge.id r <> AuthChallenge.id c ->
            (In r (challengesAfter env (wa_of req) (AuthChallenge.id c) uid db)
             <-> oldUsedOf (wa_of req) cutoff r = false)).
  { intros r Hin Hid. unfold challengesAfter. rewrite filter_In, negb_true_iff.
    fold cutoff. split; [tauto|]. intros Hold. split; [|exact Hold].
    apply String.eqb_neq in Hid.
    apply in_map_iff. exists r. split.
    - unfold prisma.hasId. now rewrite Hid.
    - apply in_map_iff. exists r. split; [|exact Hin].
      unfold prisma.hasId. now rewrite Hid. }
  assert (Hold : forall r,
            oldUsedOf (wa_of req) cutoff r = false
            <-> ~ (AuthChallenge.walletAddress r = wa_of req
                   /\ AuthChallenge.isUsed r = true
                   /\ exists at_, AuthChallenge.usedAt r = Some at_ /\ (at_ < cutoff)%Z)).
  { intros r. unfold oldUsedOf.
    destruct (String.eqb_spec (AuthChallenge.walletAddress r) (wa_of req)) as [Hw|Hw];
      cbn [andb]; [| split; [intros _ [Hw' _]; contradiction | reflexivity]].
    destruct (AuthChallenge.isUsed r); cbn [andb];
      [| split; [intros _ (_ & Hu & _); discriminate | reflexivity]].
    destruct (AuthChallenge.usedAt r) as [at_|];
      [| split; [intros _ (_ & _ & x & Hx & _); discriminate | reflexivity]].
    rewrite Z.ltb_ge. split.
    - intros Hge (_ & _ & x & Hx & Hlt). injection Hx as <-. lia.
    - intros Hnot. destruct (Z.lt_ge_cases at_ cutoff) as [Hlt|Hge]; [|exact Hge].
      exfalso. apply Hnot. repeat split; trivial. now exists at_. }
  split.
  - intros r Hin Hid. rewrite (Hother r Hin Hid). apply Hold.
  - intros r Hin Hid Hw. apply (Hother r Hin Hid). apply Hold.
    intros [Hw' _]. contradiction.
Qed.

End ConnectOutcomes.

(* ===================================================================== *)
(** * Invariants of the two tables under any interleaving *)
(* ===================================================================== *)

Lemma NoDup_map_filter {A B : Type} (f : A -> B) (q : A -> bool) (l : list A) :
  NoDup (map f l) -> NoDup (map f (filter q l)).
Proof.
  induction l as [|x l IH]; cbn; intros Hnd; [constructor|].
  apply NoDup_cons_iff in Hnd. destruct Hnd as [Hnotin Hnd].
  destruct (q x); cbn; [|now apply IH].
  constructor; [|now apply IH].
  intros Hin. apply Hnotin. apply in_map_iff in Hin.
  destruct Hin as (y & Hy & Hin). apply filter_In in Hin.
  rewrite <- Hy. apply in_map. tauto.
Qed.

Lemma challengesKept_refl (rows : list AuthChallenge.t) : challengesKept rows rows.
Proof. intros r Hin. exists r. repeat split; trivial. Qed.

Lemma challengesKept_trans (a b c : list AuthChallenge.t) :
  challengesKept a b -> challengesKept b c -> challengesKept a c.
Proof.
  intros Hab Hbc r'' Hin.
  destruct (Hbc r'' Hin) as (r' & Hin' & Hi' & Ht' & Hw' & He' & Hu').
  destruct (Hab r' Hin') as (r & Hinr & Hi & Ht & Hw & He & Hu).
  exists r. repeat split; try congruence. intros H. apply Hu', Hu, H.
Qed.

Section TableInvariants.

Variable isValidStellarAddress : string -> bool.
Variable verifySignature : string -> string -> string -> bool.
Variable generateToken : string -> string -> string.

Local Abbreviation step :=
  (connect_step isValidStellarAddress verifySignature generateToken).
Local Abbreviation run :=
  (interleave isValidStellarAddress verifySignature generateToken).

(** What one step can do to the table of challenges: nothing, remove
    rows, or rewrite the rows of one id with a function that keeps id,
    token, wallet and expiry and does not reset [isUsed]. *)
Lemma connect_step_challenges (env : ConnectEnv) (task : ConnectTask) (db : DB) :
  let rows := authChallenges db in
  let rows' := authChallenges (snd (step env task db)) in
  rows' = rows
  \/ (exists q, rows' = filter q rows)
  \/ (exists i g,
        rows' = map (fun c => if prisma.hasId i c then g c else c) rows
        /\ forall x,
             AuthChallenge.id (g x) = AuthChallenge.id x
             /\ AuthChallenge.challenge (g x) = AuthChallenge.challenge x
             /\ AuthChallenge.walletAddress (g x) = AuthChallenge.walletAddress x
             /\ AuthChallenge.expiresAt (g x) = AuthChallenge.expiresAt x
             /\ (AuthChallenge.isUsed x = true -> AuthChallenge.isUsed (g x) = true)).
Proof.
  destruct task; cbn [connect_step];
    unfold awaited, prisma.authChallenge_findUnique, prisma.authChallenge_delete,
      prisma.authChallenge_update, prisma.user_findUnique, prisma.user_create,
      prisma.user_update, prisma.authChallenge_deleteMany;
    repeat split_branch;
    cbn [fst snd authChallenges prisma.withChallenges prisma.withUsers];
    first
      [ left; reflexivity
      | right; left; eexists; reflexivity
      | right; right; eexists _, _; split;
        [reflexivity | intros x; cbn; tauto] ].
Qed.

(** What one step can do to the table of users: nothing, append a row
    whose address no stored user has, or rewrite rows keeping their
    address. *)
Lemma connect_step_users (env : ConnectEnv) (task : ConnectTask) (db : DB) :
  let rows := users db in
  let rows' := users (snd (step env task db)) in
  rows' = rows
  \/ (exists u, rows' = (rows ++ [u])%list
                /\ existsb (prisma.hasWallet (User.walletAddress u)) rows = false)
  \/ (exists w g, rows' = map (fun u => if prisma.hasWallet w u then g u else u) rows
                  /\ forall x, User.walletAddress (g x) = User.walletAddress x).
Proof.
  destruct task; cbn [connect_step];
    unfold awaited, prisma.authChallenge_findUnique, prisma.authChallenge_delete,
      prisma.authChallenge_update, prisma.user_findUnique, prisma.user_create,
      prisma.user_update, prisma.authChallenge_deleteMany;
    repeat split_branch;
    cbn [fst snd users prisma.withChallenges prisma.withUsers];
    first
      [ left; reflexivity
      | right; right; eexists _, _; split; [reflexivity | intros x; reflexivity]
      | right; left; eexists; split; [reflexivity|];
        cbn [User.walletAddress];
        match goal with
        | H : (_ || _) = false |- _ => apply orb_false_iff in H; apply H
        end ].
Qed.

Lemma connect_step_keeps (env : ConnectEnv) (task : ConnectTask) (db : DB) :
  let db' := snd (step env task db) in
  challengesKept (authChallenges db) (authChallenges db')
  /\ (NoDup (map AuthChallenge.id (authChallenges db)) ->
      NoDup (map AuthChallenge.id (authChallenges db')))
  /\ (NoDup (map AuthChallenge.challenge (authChallenges db)) ->
      NoDup (map AuthChallenge.challenge (authChallenges db')))
  /\ (NoDup (map User.walletAddress (users db)) ->
      NoDup (map User.walletAddress (users db'))).
Proof.
  intros db'. subst db'.
  split; [| split; [| split]].
  - destruct (connect_step_challenges env task db) as [-> | [[q ->] | (i & g & -> & Hg)]].
    + apply challengesKept_refl.
    + intros r Hin. apply filter_In in Hin. exists r. repeat split; tauto.
    + intros r' Hin. apply in_map_iff in Hin. destruct Hin as (r & <- & Hin).
      exists r. split; [exact Hin|].
      destruct (prisma.hasId i r); [apply Hg | repeat split; trivial].
  - intros Hnd.
    destruct (connect_step_challenges env task db) as [-> | [[q ->] | (i & g & -> & Hg)]].
    + exact Hnd.
    + now apply NoDup_map_filter.
    + rewrite map_key_preserved; [exact Hnd|].
      intros x. destruct (prisma.hasId i x); [apply Hg | reflexivity].
  - intros Hnd.
    destruct (connect_step_challenges env task db) as [-> | [[q ->] | (i & g & -> & Hg)]].
    + exact Hnd.
    + now apply NoDup_map_filter.
    + rewrite map_key_preserved; [exact Hnd|].
      intros x. destruct (prisma.hasId i x); [apply Hg | reflexivity].
  - intros Hnd.
    destruct (connect_step_users env task db) as [-> | [(u & -> & Hu) | (w & g & -> & Hg)]].
    + exact Hnd.
    + rewrite map_app. apply NoDup_app; [exact Hnd | repeat constructor; intros [] |].
      intros a Hin [Ha | []]. cbn in Ha. subst a.
      apply in_map_iff in Hin. destruct Hin as (x & Hx & Hin).
      assert (Hex : existsb (prisma.hasWallet (User.walletAddress u)) (users db) = true).
      { apply existsb_exists. exists x. split; [exact Hin|].
        unfold prisma.hasWallet. rewrite Hx. apply String.eqb_refl. }
      congruence.
    + rewrite map_key_preserved; [exact Hnd|].
      intros x. destruct (prisma.hasWallet w x); [apply Hg | reflexivity].
Qed.

(** A step of the pool is a step of one execution, or nothing. *)
Lemma stepAt_database (i : nat) (pool : list Execution) (db : DB) :
  snd (stepAt isValidStellarAddress verifySignature generateToken i pool db) = db
  \/ exists env task,
       snd (stepAt isValidStellarAddress verifySignature generateToken i pool db)
       = snd (step env task db).
Proof.
  revert i. induction pool as [|ex rest IH]; intros i;
    [destruct i; now left|].
  destruct i as [|i]; cbn [stepAt].
  - right. exists (ex_env ex), (ex_task ex).
    destruct (step (ex_env ex) (ex_task ex) db). reflexivity.
  - specialize (IH i).
    destruct (stepAt isValidStellarAddress verifySignature generateToken i rest db).
    exact IH.
Qed.

Lemma interleave_keeps (schedule : list nat) :
  forall (pool : list Execution) (db : DB),
    let db' := snd (run schedule pool db) in
    challengesKept (authChallenges db) (authChallenges db')
    /\ (NoDup (map AuthChallenge.id (authChallenges db)) ->
        NoDup (map AuthChallenge.id (authChallenges db')))
    /\ (NoDup (map AuthChallenge.challenge (authChallenges db)) ->
        NoDup (map AuthChallenge.challenge (authChallenges db')))
    /\ (NoDup (map User.walletAddress (users db)) ->
        NoDup (map User.walletAddress (users db'))).
Proof.
  induction schedule as [|i later IH]; intros pool db; cbn [interleave snd].
  - split; [apply challengesKept_refl | tauto].
  - pose proof (stepAt_database i pool db) as Hstep.
    destruct (stepAt isValidStellarAddress verifySignature generateToken i pool db)
      as [pool1 db1].
    cbn [snd] in Hstep.
    specialize (IH pool1 db1). cbn zeta in IH.
    destruct IH as (Hk & Hi & Ht & Hw).
    assert (H1 : challengesKept (authChallenges db) (authChallenges db1)
                 /\ (NoDup (map AuthChallenge.id (authChallenges db)) ->
                     NoDup (map AuthChallenge.id (authChallenges db1)))
                 /\ (NoDup (map AuthChallenge.challenge (authChallenges db)) ->
                     NoDup (map AuthChallenge.challenge (authChallenges db1)))
                 /\ (NoDup (map User.walletAddress (users db)) ->
                     NoDup (map User.walletAddress (users db1)))).
    { destruct Hstep as [-> | (env & task & ->)].
      - split; [apply challengesKept_refl | tauto].
      - apply connect_step_keeps. }
    destruct H1 as (Hk1 & Hi1 & Ht1 & Hw1).
    split; [exact (challengesKept_trans _ _ _ Hk1 Hk) | tauto].
Qed.

(** However concurrent verifications are interleaved, there is never more
    than one user per wallet address. The handler itself does not see to
    it: two first logins of one wallet (with a challenge each, or the same
    one) that both look for the user before either creates it both go on
    to [user.create]; the first creation stores the row, the second
    rejects on the unique wallet address, and that request, whose
    challenge is consumed already, is answered 500 instead of a session. *)
Theorem concurrent_logins_one_user_per_wallet :
  (forall (schedule : list nat) (pool : list Execution) (db : DB),
     NoDup (map User.walletAddress (users db)) ->
     NoDup (map User.walletAddress (users (snd (run schedule pool db)))))
  /\ (forall (env1 env2 : ConnectEnv) (req1 req2 : ConnectRequestBody.t) (db : DB)
             (c1 c2 : AuthChallenge.t),
        accepted isValidStellarAddress verifySignature env1 req1 db c1 ->
        accepted isValidStellarAddress verifySignature env2 req2 db c2 ->
        valueOf (ConnectRequestBody.walletAddress req2)
        = valueOf (ConnectRequestBody.walletAddress req1) ->
        find (prisma.hasWallet (valueOf (ConnectRequestBody.walletAddress req1)))
             (users db) = None ->
        existsb (prisma.hasUserId (ne_newUserId env1)) (users db) = false ->
        let final := run [0; 1; 0; 1; 0; 1; 0; 1; 0; 1; 0; 0]%nat
                       [ {| ex_env := env1; ex_task := AtStart req1 |};
                         {| ex_env := env2; ex_task := AtStart req2 |} ] db in
        map responseStatus (fst final) = [Some 200; Some 500]
        /\ users (snd final)
           = (users db
              ++ [createdUser env1 (valueOf (ConnectRequestBody.walletAddress req1))])%list
        /\ (forall c, In c (authChallenges (snd final)) ->
                      AuthChallenge.id c = AuthChallenge.id c2 ->
                      AuthChallenge.isUsed c = true)).
Proof.
  split.
  - intros schedule pool db Hnd. now apply (interleave_keeps schedule pool db).
  - intros env1 env2 req1 req2 db c1 c2 H1 H2 Hsame Hnone Hfresh.
    exact (racing_creations_one_row isValidStellarAddress verifySignature
             generateToken env1 env2 req1 req2 db c1 c2 H1 H2 Hsame Hnone Hfresh).
Qed.

(** However verifications are interleaved, they never add a challenge,
    never change the id, token, wallet or expiry of one and never reset
    [isUsed] to false; the ids and the tokens stay unique. *)
Theorem challenges_never_reset (schedule : list nat) (pool : list Execution)
    (db : DB) :
  let rows' := authChallenges (snd (run schedule pool db)) in
  challengesKept (authChallenges db) rows'
  /\ (NoDup (map AuthChallenge.id (authChallenges db)) ->
      NoDup (map AuthChallenge.id rows'))
  /\ (NoDup (map AuthChallenge.challenge (authChallenges db)) ->
      NoDup (map AuthChallenge.challenge rows')).
Proof.
  destruct (interleave_keeps schedule pool db) as (Hk & Hi & Ht & _).
  repeat split; assumption.
Qed.

(** One call of the handler, as seven steps, keeps what the steps keep. *)
Lemma post_connect_keeps (env : ConnectEnv) (req : ConnectRequestBody.t) (db : DB) :
  let db' := snd (post_connect isValidStellarAddress verifySignature generateToken
                    env req db) in
  challengesKept (authChallenges db) (authChallenges db')
  /\ (NoDup (map AuthChallenge.id (authChallenges db)) ->
      NoDup (map AuthChallenge.id (authChallenges db')))
  /\ (NoDup (map AuthChallenge.challenge (authChallenges db)) ->
      NoDup (map AuthChallenge.challenge (authChallenges db'))).
Proof.
  pose proof (interleave_keeps (repeat 0%nat 7)
                [ {| ex_env := env; ex_task := AtStart req |} ] db) as H.
  rewrite interleave_first in H. cbn [snd ex_env ex_task] in H.
  rewrite connect_steps_post_connect in H. cbn [snd] in H.
  cbn zeta in *. destruct H as (Hk & Hi & Ht & _). repeat split; assumption.
Qed.

End TableInvariants.

Ltac open_challenge_handler := unfold post_challenge, challenge_try, bind, ret.

Section ChallengeOutcomes.

Variable isValidStellarAddress : string -> bool.
Variable LocalTZA : JS.TimeZone.

Local Abbreviation post_challenge := (post_challenge isValidStellarAddress LocalTZA).
Local Abbreviation wallet_of req := (valueOf (ChallengeRequestBody.walletAddress req)).
Local Abbreviation kept env req db :=
  (filter (fun c => negb (expiredOf (wallet_of req) (ce_purgeNow env) c))
          (authChallenges db)).
Local Abbreviation taken env req db :=
  (existsb (prisma.hasId (ce_newId env)) (kept env req db)
   || existsb (prisma.hasChallenge
                 (generateChallenge (ce_timestamp env) (ce_randomBytes env)))
              (kept env req db)).

(** The three ways [POST /challenge] ends. *)
Lemma post_challenge_outcome (env : ChallengeEnv) (req : ChallengeRequestBody.t)
    (db : DB) :
  let valid := negb (falsy (ChallengeRequestBody.walletAddress req))
               && isValidStellarAddress (wallet_of req) in
  let row := issuedChallenge LocalTZA env (wallet_of req) in
  (valid = false
   /\ exists message, post_challenge env req db = (validationError message, db))
  \/ (valid = true /\ taken env req db = true
      /\ post_challenge env req db
         = (internalError "Failed to generate authentication challenge",
            {| authChallenges := kept env req db; users := users db |}))
  \/ (valid = true /\ taken env req db = false
      /\ post_challenge env req db
         = (json 200 (ChallengeResponse (AuthChallenge.challenge row)
                        (AuthChallenge.expiresAt row)),
            {| authChallenges := (kept env req db ++ [row])%list;
               users := users db |})).
Proof.
  intros valid row. subst valid row.
  open_challenge_handler.
  destruct (falsy (ChallengeRequestBody.walletAddress req)) eqn:Hpres; cbn [negb andb].
  { left. split; [reflexivity|]. eexists. reflexivity. }
  destruct (isValidStellarAddress (wallet_of req)) eqn:Hvalid; cbn [negb].
  2:{ left. split; [reflexivity|]. eexists. reflexivity. }
  right.
  unfold prisma.authChallenge_deleteMany, prisma.authChallenge_create.
  cbn [authChallenges prisma.withChallenges users].
  destruct (taken env req db) eqn:Htaken.
  - left. repeat split.
  - right. repeat split.
Qed.

Lemma find_app_none {A : Type} (p : A -> bool) (l l' : list A) :
  existsb p l = false -> find p (l ++ l') = find p l'.
Proof.
  induction l as [|x l IH]; cbn; [reflexivity|].
  destruct (p x); cbn; [discriminate | exact IH].
Qed.

(** A request without a wallet address, or with one that is not a Stellar
    address, is answered 400 before anything is read or written: the
    purge does not run. *)
Theorem challenge_invalid_request_unchanged (env : ChallengeEnv)
    (req : ChallengeRequestBody.t) (db : DB) :
  falsy (ChallengeRequestBody.walletAddress req) = true
  \/ isValidStellarAddress (wallet_of req) = false ->
  status (fst (post_challenge env req db)) = 400
  /\ (exists message,
        body (fst (post_challenge env req db)) = ErrorBody "Validation Error" message)
  /\ snd (post_challenge env req db) = db.
Proof.
  intros Hbad.
  destruct (post_challenge_outcome env req db)
    as [(_ & m & ->) | [(Hv & _) | (Hv & _)]].
  - cbn. repeat split. now exists m.
  - exfalso. apply andb_true_iff in Hv. destruct Hv as [Hp Hv].
    apply negb_true_iff in Hp. destruct Hbad; congruence.
  - exfalso. apply andb_true_iff in Hv. destruct Hv as [Hp Hv].
    apply negb_true_iff in Hp. destruct Hbad; congruence.
Qed.

(** What is answered is what is stored: on a 200 the body carries the
    token and the expiry of the row just created; that row is bound to the
    wallet of the request, unused, and is the row a lookup of the token
    finds; its expiry is what [getChallengeExpiry] makes of its clock
    reading, which is 5 minutes later whenever the zone offset in force at
    the reading is the one the resulting local time is read under (always,
    in a zone without transitions); the users are untouched. *)
Theorem issued_challenge_stored (env : ChallengeEnv) (req : ChallengeRequestBody.t)
    (db : DB) :
  status (fst (post_challenge env req db)) = 200 ->
  let db' := snd (post_challenge env req db) in
  exists row,
    body (fst (post_challenge env req db))
    = ChallengeResponse (AuthChallenge.challenge row) (AuthChallenge.expiresAt row)
    /\ find (prisma.hasChallenge (AuthChallenge.challenge row)) (authChallenges db')
       = Some row
    /\ AuthChallenge.challenge row
       = generateChallenge (ce_timestamp env) (ce_randomBytes env)
    /\ ChallengeRequestBody.walletAddress req = Some (AuthChallenge.walletAddress row)
    /\ AuthChallenge.expiresAt row = getChallengeExpiry LocalTZA (ce_expiryNow env)
    /\ (LocalTZA (ce_expiryNow env + LocalTZA (ce_expiryNow env) true + 300000) false
        = LocalTZA (ce_expiryNow env) true ->
        AuthChallenge.expiresAt row = (ce_expiryNow env + 5 * 60 * 1000)%Z)
    /\ AuthChallenge.isUsed row = false
    /\ AuthChallenge.usedAt row = None
    /\ users db' = users db.
Proof.
  intros H200.
  destruct (post_challenge_outcome env req db)
    as [(_ & m & Hres) | [(_ & _ & Hres) | (Hv & Htaken & Hres)]];
    rewrite Hres in *; cbn [fst snd status json validationError internalError] in *;
    try discriminate H200.
  exists (issuedChallenge LocalTZA env (wallet_of req)).
  apply orb_false_iff in Htaken. destruct Htaken as [_ Htok].
  apply andb_true_iff in Hv. destruct Hv as [Hp _]. apply negb_true_iff in Hp.
  split; [reflexivity|]. split.
  - cbn [authChallenges]. rewrite find_app_none by exact Htok.
    cbn. unfold prisma.hasChallenge. cbn [issuedChallenge AuthChallenge.challenge].
    now rewrite String.eqb_refl.
  - split; [reflexivity|]. split; [now apply present_value|].
    split; [reflexivity|].
    split; [intros Hsame; now apply getChallengeExpiry_plus|]. repeat split.
Qed.

(** For a valid request the answer is 200 or 500, and it is 500 exactly
    when the generated id or the generated token is already held by a row
    that survives the purge; then no row is stored, and the purge is not
    undone. *)
Theorem challenge_collision_rejected (env : ChallengeEnv)
    (req : ChallengeRequestBody.t) (db : DB) :
  falsy (ChallengeRequestBody.walletAddress req) = false ->
  isValidStellarAddress (wallet_of req) = true ->
  let res := fst (post_challenge env req db) in
  let db' := snd (post_challenge env req db) in
  (status res = 200 \/ status res = 500)
  /\ (status res = 500 <-> taken env req db = true)
  /\ (status res = 500 ->
      authChallenges db' = kept env req db /\ users db' = users db).
Proof.
  intros Hp Hvalid.
  destruct (post_challenge_outcome env req db)
    as [(Hv & _) | [(_ & Htaken & Hres) | (_ & Htaken & Hres)]].
  - rewrite Hp, Hvalid in Hv. discriminate.
  - rewrite Hres. cbn [fst snd status json internalError authChallenges users].
    split; [now right|]. split; [tauto|]. intros _. split; reflexivity.
  - rewrite Hres. cbn [fst snd status json authChallenges users].
    split; [now left|]. split; [split; intros H; [discriminate | congruence]|].
    intros H. discriminate.
Qed.

(** [POST /challenge] keeps the ids and the tokens of the table unique. *)
Lemma post_challenge_keeps (env : ChallengeEnv) (req : ChallengeRequestBody.t)
    (db : DB) :
  let db' := snd (post_challenge env req db) in
  (NoDup (map AuthChallenge.id (authChallenges db)) ->
   NoDup (map AuthChallenge.id (authChallenges db')))
  /\ (NoDup (map AuthChallenge.challenge (authChallenges db)) ->
      NoDup (map AuthChallenge.challenge (authChallenges db'))).
Proof.
  assert (Hfresh : forall (key : AuthChallenge.t -> string) row rows,
            NoDup (map key rows) ->
            existsb (fun c => key c =? key row) rows = false ->
            NoDup (map key (rows ++ [row]))).
  { intros key row rows Hnd Hno. rewrite map_app.
    apply NoDup_app; [exact Hnd | repeat constructor; intros [] |].
    intros a Hin [Ha | []]. cbn in Ha. subst a.
    apply in_map_iff in Hin. destruct Hin as (x & Hx & Hin).
    assert (Hex : existsb (fun c => key c =? key row) rows = true).
    { apply existsb_exists. exists x. split; [exact Hin|].
      rewrite Hx. apply String.eqb_refl. }
    congruence. }
  destruct (post_challenge_outcome env req db)
    as [(_ & m & ->) | [(_ & _ & ->) | (_ & Htaken & ->)]];
    cbn [snd authChallenges].
  - tauto.
  - split; intros Hnd; now apply NoDup_map_filter.
  - apply orb_false_iff in Htaken. destruct Htaken as [Hid Htok].
    split; intros Hnd.
    + apply Hfresh; [now apply NoDup_map_filter | exact Hid].
    + apply Hfresh; [now apply NoDup_map_filter | exact Htok].
Qed.

End ChallengeOutcomes.

(* ===================================================================== *)
(** * From issuance to verification *)
(* ===================================================================== *)

Lemma existsb_filter_false {A : Type} (p q : A -> bool) (l : list A) :
  existsb p l = false -> existsb p (filter q l) = false.
Proof.
  induction l as [|x l IH]; cbn; [reflexivity|].
  intros H. apply orb_false_iff in H. destruct H as [Hx Hl].
  destruct (q x); cbn; [rewrite Hx|]; now apply IH.
Qed.

Ltac open_serve := cbn [serve].

Section Lifecycle.

Variable isValidStellarAddress : string -> bool.
Variable verifySignature : string -> string -> string -> bool.
Variable generateToken : string -> string -> string.
Variable LocalTZA : JS.TimeZone.

Local Abbreviation post_challenge := (post_challenge isValidStellarAddress LocalTZA).
Local Abbreviation post_connect :=
  (post_connect isValidStellarAddress verifySignature generateToken).
Local Abbreviation serve :=
  (serve isValidStellarAddress verifySignature generateToken LocalTZA).

(** Across any sequence of issuances and verifications the ids and the
    tokens of the stored challenges stay unique: the table never comes to
    hold two rows that one [findUnique] could answer with. *)
Theorem unique_columns_preserved (ops : list Operation) (db : DB) :
  NoDup (map AuthChallenge.id (authChallenges db)) ->
  NoDup (map AuthChallenge.challenge (authChallenges db)) ->
  NoDup (map AuthChallenge.id (authChallenges (serve ops db)))
  /\ NoDup (map AuthChallenge.challenge (authChallenges (serve ops db))).
Proof.
  revert db. induction ops as [|op later IH]; intros db Hid Htok; open_serve.
  - now split.
  - apply IH; destruct op as [env req | env req]; cbn [perform].
    + now apply (post_challenge_keeps isValidStellarAddress LocalTZA env req db).
    + now apply (post_connect_keeps isValidStellarAddress verifySignature
                   generateToken env req db).
    + now apply (post_challenge_keeps isValidStellarAddress LocalTZA env req db).
    + now apply (post_connect_keeps isValidStellarAddress verifySignature
                   generateToken env req db).
Qed.

(** The request that answers an issued challenge with [signature]. *)
Local Abbreviation answerTo cenv creq signature :=
  {| ConnectRequestBody.walletAddress :=
       Some (valueOf (ChallengeRequestBody.walletAddress creq));
     ConnectRequestBody.challenge :=
       Some (generateChallenge (ce_timestamp cenv) (ce_randomBytes cenv));
     ConnectRequestBody.signature := Some signature |}.

(** What [POST /challenge] leaves for the verification of the challenge it
    issued. *)
Lemma issued_then_found (cenv : ChallengeEnv) (creq : ChallengeRequestBody.t)
    (db : DB) (signature : string) :
  status (fst (post_challenge cenv creq db)) = 200 ->
  signature <> "" ->
  let w := valueOf (ChallengeRequestBody.walletAddress creq) in
  let db1 := snd (post_challenge cenv creq db) in
  let req := answerTo cenv creq signature in
  wellFormed isValidStellarAddress req = true
  /\ lookup req db1 = Some (issuedChallenge LocalTZA cenv w)
  /\ existsb (prisma.hasChallenge
                (generateChallenge (ce_timestamp cenv) (ce_randomBytes cenv)))
       (filter (fun c => negb (expiredOf w (ce_purgeNow cenv) c)) (authChallenges db))
     = false
  /\ authChallenges db1
     = (filter (fun c => negb (expiredOf w (ce_purgeNow cenv) c)) (authChallenges db)
        ++ [issuedChallenge LocalTZA cenv w])%list.
Proof.
  intros H200 Hsig w db1 req. subst w db1 req.
  destruct (post_challenge_outcome isValidStellarAddress LocalTZA cenv creq db)
    as [(_ & m & Hres) | [(_ & _ & Hres) | (Hv & Htaken & Hres)]];
    rewrite Hres in *; cbn [fst snd status json validationError internalError] in *;
    try discriminate H200.
  apply orb_false_iff in Htaken. destruct Htaken as [_ Htok].
  apply andb_true_iff in Hv. destruct Hv as [Hp Hvalid]. apply negb_true_iff in Hp.
  split; [| split; [| split; [exact Htok | reflexivity]]].
  - unfold wellFormed. cbn [ConnectRequestBody.walletAddress
      ConnectRequestBody.challenge ConnectRequestBody.signature valueOf].
    rewrite Hvalid.
    assert (Hw : falsy (Some (valueOf (ChallengeRequestBody.walletAddress creq)))
                 = false).
    { destruct (ChallengeRequestBody.walletAddress creq); [exact Hp | discriminate]. }
    rewrite Hw. apply String.eqb_neq in Hsig. cbn [falsy]. now rewrite Hsig.
  - unfold lookup. cbn [ConnectRequestBody.challenge valueOf authChallenges].
    rewrite find_app_none by exact Htok.
    cbn. unfold prisma.hasChallenge. cbn [issuedChallenge AuthChallenge.challenge].
    now rewrite String.eqb_refl.
Qed.

(** An issued challenge is good until the expiry [getChallengeExpiry]
    computed for it, and no longer. Answered with a signature that
    verifies, it opens a session for its wallet when the expiry test reads
    a clock no later than that expiry; read any later, the answer is 401
    "expired", the row is deleted and its token is not found any more.
    That expiry is 5 minutes after the reading of [getChallengeExpiry]
    whenever the zone offset in force at the reading is the one the
    resulting local time is read under. *)
Theorem issued_challenge_valid_until_expiry (cenv : ChallengeEnv)
    (creq : ChallengeRequestBody.t) (db : DB) (env : ConnectEnv)
    (signature : string) :
  status (fst (post_challenge cenv creq db)) = 200 ->
  signature <> "" ->
  let w := valueOf (ChallengeRequestBody.walletAddress creq) in
  let token := generateChallenge (ce_timestamp cenv) (ce_randomBytes cenv) in
  let db1 := snd (post_challenge cenv creq db) in
  let req := answerTo cenv creq signature in
  let expiry := getChallengeExpiry LocalTZA (ce_expiryNow cenv) in
  verifySignature w token signature = true ->
  ((ne_expiryCheck env <= expiry)%Z ->
   userSavable env w db1 = true ->
   exists uid created,
     fst (post_connect env req db1)
     = json 200 (ConnectResponse (generateToken uid w) uid w created (ne_now env)))
  /\ ((expiry < ne_expiryCheck env)%Z ->
      fst (post_connect env req db1)
      = authenticationError "Challenge has expired. Please request a new one."
      /\ lookup req (snd (post_connect env req db1)) = None)
  /\ (LocalTZA (ce_expiryNow cenv + LocalTZA (ce_expiryNow cenv) true + 300000) false
      = LocalTZA (ce_expiryNow cenv) true ->
      expiry = (ce_expiryNow cenv + 5 * 60 * 1000)%Z).
Proof.
  intros H200 Hsig w token db1 req expiry Hverify. subst w token db1 req expiry.
  destruct (issued_then_found cenv creq db signature H200 Hsig)
    as (Hwf & Hlk & Htok & Hrows).
  set (w := valueOf (ChallengeRequestBody.walletAddress creq)) in *.
  set (token := generateChallenge (ce_timestamp cenv) (ce_randomBytes cenv)) in *.
  set (db1 := snd (post_challenge cenv creq db)) in *.
  set (req := {| ConnectRequestBody.walletAddress := Some w;
                 ConnectRequestBody.challenge := Some token;
                 ConnectRequestBody.signature := Some signature |}) in *.
  set (row := issuedChallenge LocalTZA cenv w) in *.
  assert (Hexpiry : AuthChallenge.expiresAt row
                    = getChallengeExpiry LocalTZA (ce_expiryNow cenv))
    by reflexivity.
  split; [| split; [| intros Hsame; now apply getChallengeExpiry_plus]].
  - intros Hin Hsav.
    assert (Hacc : accepted isValidStellarAddress verifySignature env req db1 row).
    { repeat split; try assumption; try reflexivity.
      unfold isChallengeExpired. rewrite Hexpiry, Z.gtb_ltb. apply Z.ltb_ge. lia. }
    rewrite (post_connect_accepted _ _ generateToken _ _ _ _ Hacc Hsav).
    cbn [fst]. eexists _, _. reflexivity.
  - intros Hlate.
    assert (Hexp : isChallengeExpired (ne_expiryCheck env) (AuthChallenge.expiresAt row)
                   = true).
    { unfold isChallengeExpired. rewrite Hexpiry. apply Z.gtb_lt. lia. }
    rewrite (post_connect_expired _ verifySignature generateToken _ _ _ _
               Hwf Hlk eq_refl Hexp).
    cbn [fst snd]. split; [reflexivity|].
    unfold lookup. cbn [authChallenges ConnectRequestBody.challenge valueOf req].
    destruct (find (prisma.hasChallenge token) _) as [x|] eqn:Hfind; [|reflexivity].
    exfalso. apply find_some in Hfind. destruct Hfind as [Hin Hx].
    apply filter_In in Hin. destruct Hin as [Hin Hid]. rewrite Hrows in Hin.
    apply in_app_or in Hin. destruct Hin as [Hin | [<- | []]].
    + assert (Hex : existsb (prisma.hasChallenge token)
                      (filter (fun c => negb (expiredOf w (ce_purgeNow cenv) c))
                              (authChallenges db)) = true).
      { apply existsb_exists. now exists x. }
      congruence.
    + unfold prisma.hasId in Hid. rewrite String.eqb_refl in Hid. discriminate.
Qed.

End Lifecycle.

(* ===================================================================== *)
(** * Further properties of the challenge generator *)
(* ===================================================================== *)

(** The decimal digits of a number give the number back. *)
Lemma numberToString_parse (z : Z) :
  option_map Z.of_int (NilZero.int_of_string (JS.numberToString z)) = Some z.
Proof.
  unfold JS.numberToString. rewrite NilZero.isi.
  - cbn [option_map]. now rewrite DecimalZ.of_to.
  - destruct z; cbn; try discriminate.
    intros H. injection H as H. now apply DecimalPos.Unsigned.to_uint_nonnil in H.
  - destruct z; cbn; try discriminate.
    intros H. injection H as H. now apply DecimalPos.Unsigned.to_uint_nonnil in H.
Qed.

Lemma numberToString_inj (z1 z2 : Z) :
  JS.numberToString z1 = JS.numberToString z2 -> z1 = z2.
Proof.
  intros Heq. pose proof (numberToString_parse z1) as H1.
  rewrite Heq, numberToString_parse in H1. now injection H1.
Qed.

Lemma append_inj_l (s1 s2 t1 t2 : string) :
  String.length t1 = String.length t2 ->
  s1 ++ t1 = s2 ++ t2 ->
  s1 = s2.
Proof.
  revert s2. induction s1 as [|c s1 IH]; intros [|d s2] Hlen Heq; cbn in Heq.
  - reflexivity.
  - subst t1. cbn in Hlen. rewrite length_append in Hlen. lia.
  - subst t2. cbn in Hlen. rewrite length_append in Hlen. lia.
  - injection Heq as -> Heq. f_equal. exact (IH s2 Hlen Heq).
Qed.

(** A token tells when and from which bytes it was made: two issuances
    give the same token exactly when they read the same millisecond
    timestamp and [crypto.randomBytes 32] drew the same 32 bytes. *)
Theorem challenge_token_determines_issuance (t1 t2 : Z) (s1 s2 : RandomSource) :
  generateChallenge t1 s1 = generateChallenge t2 s2
  <-> t1 = t2 /\ crypto.randomBytes 32 s1 = crypto.randomBytes 32 s2.
Proof.
  unfold generateChallenge. cbv zeta.
  set (r1 := crypto.randomBytes 32 s1). set (r2 := crypto.randomBytes 32 s2).
  split; [| intros [-> ->]; reflexivity].
  intros Heq.
  assert (Hlen : String.length (JS.toStringHex r1) = String.length (JS.toStringHex r2))
    by (subst r1 r2; now rewrite !toStringHex_length, !randomBytes_length).
  rewrite <- !append_assoc in Heq.
  pose proof (append_inj_r _ _ _ _ Hlen Heq) as Hhex.
  apply append_inj_l in Heq; [|exact Hlen].
  apply append_inj_l in Heq; [|reflexivity].
  cbn in Heq. split.
  - apply numberToString_inj. congruence.
  - now apply toStringHex_inj.
Qed.

(** The layout of a token: the prefix "xelma_auth_", the decimal digits of
    the millisecond timestamp read by the generator, an underscore, and
    the 32 bytes drawn by [crypto.randomBytes 32] as 64 lower-case
    hexadecimal digits, from which the timestamp and the bytes are read
    back. *)
Theorem challenge_token_layout (timestamp : Z) (source : RandomSource) :
  exists digits hex : string,
    generateChallenge timestamp source = "xelma_auth_" ++ digits ++ "_" ++ hex
    /\ option_map Z.of_int (NilZero.int_of_string digits) = Some timestamp
    /\ String.length hex = 64%nat
    /\ JS.everyChar JS.isHexDigit hex = true
    /\ JS.fromStringHex hex = Some (crypto.randomBytes 32 source)
    /\ List.length (crypto.randomBytes 32 source) = 32%nat.
Proof.
  exists (JS.numberToString timestamp),
         (JS.toStringHex (crypto.randomBytes 32 source)).
  split; [reflexivity|].
  split; [apply numberToString_parse|].
  split; [now rewrite toStringHex_length, randomBytes_length|].
  split; [apply toStringHex_digits|].
  split; [apply fromStringHex_toStringHex | apply randomBytes_length].
Qed.

(** When a challenge lives for [getChallengeExpirySeconds]. Whatever the
    zone, the expiry of [getChallengeExpiry] is that many seconds after its
    clock reading plus the difference between the zone offset in force at
    the reading and the one the resulting local time is read under; so,
    where the two offsets agree (always, in a zone of fixed offset), a
    challenge counts as expired exactly at the clock readings later than
    [getChallengeExpirySeconds] after the reading of [getChallengeExpiry].
    Once expired it stays so. *)
Theorem challenge_validity_window :
  (forall (LocalTZA : JS.TimeZone) (issued t : Z),
     isChallengeExpired t (getChallengeExpiry LocalTZA issued) = true
     <-> (issued + getChallengeExpirySeconds * 1000
          + (LocalTZA issued true
             - LocalTZA (issued + LocalTZA issued true + 300000) false) < t)%Z)
  /\ (forall (LocalTZA : JS.TimeZone) (issued t : Z),
        LocalTZA (issued + LocalTZA issued true + 300000) false = LocalTZA issued true ->
        (isChallengeExpired t (getChallengeExpiry LocalTZA issued) = true
         <-> (issued + getChallengeExpirySeconds * 1000 < t)%Z))
  /\ (forall offset issued t : Z,
        isChallengeExpired t (getChallengeExpiry (JS.fixedZone offset) issued) = true
        <-> (issued + getChallengeExpirySeconds * 1000 < t)%Z)
  /\ (forall expiresAt t t' : Z,
        isChallengeExpired t expiresAt = true ->
        (t <= t')%Z ->
        isChallengeExpired t' expiresAt = true).
Proof.
  assert (Hdrift : forall (tz : JS.TimeZone) (issued t : Z),
            isChallengeExpired t (getChallengeExpiry tz issued) = true
            <-> (issued + getChallengeExpirySeconds * 1000
                 + (tz issued true - tz (issued + tz issued true + 300000) false) < t)%Z).
  { intros tz issued t. rewrite getChallengeExpiry_drift.
    unfold isChallengeExpired, getChallengeExpirySeconds, CHALLENGE_EXPIRY_MINUTES.
    rewrite Z.gtb_lt. lia. }
  split; [exact Hdrift|]. split; [| split].
  - intros tz issued t Hsame. rewrite Hdrift, Hsame. lia.
  - intros offset issued t. rewrite Hdrift. unfold JS.fixedZone. lia.
  - intros e t t' Hexp Hle. unfold isChallengeExpired in *.
    apply Z.gtb_lt in Hexp. apply Z.gtb_lt. lia.
Qed.

(* ===================================================================== *)
(** * The authentication middleware *)
(* ===================================================================== *)

Lemma substring_all (s : string) : String.substring 0 (String.length s) s = s.
Proof.
  induction s as [|c s IH]; cbn; [reflexivity | now rewrite IH].
Qed.

Lemma substringFrom_append (a b : string) :
  substringFrom (String.length a) (a ++ b) = b.
Proof.
  unfold substringFrom. rewrite length_append.
  replace (String.length a + String.length b - String.length a)%nat
    with (String.length b) by lia.
  induction a as [|c a IH]; cbn; [apply substring_all | exact IH].
Qed.

Lemma prefix_split (a s : string) :
  String.prefix a s = true -> s = a ++ substringFrom (String.length a) s.
Proof.
  revert s. induction a as [|c a IH]; intros s Hp.
  - cbn. unfold substringFrom. rewrite Nat.sub_0_r. symmetry. apply substring_all.
  - destruct s as [|d s]; [discriminate|]. cbn in Hp.
    destruct (ascii_dec c d) as [->|]; [|discriminate].
    cbn. f_equal. exact (IH s Hp).
Qed.

(** The token of a header: what follows "Bearer ". *)
Lemma bearerToken_spec (authHeader : option string) (token : string) :
  bearerToken authHeader = Some token <-> authHeader = Some ("Bearer " ++ token).
Proof.
  unfold bearerToken. split.
  - destruct authHeader as [h|]; [|discriminate]. cbn [falsy valueOf].
    destruct (h =? ""); [discriminate|].
    destruct (String.prefix "Bearer " h) eqn:Hp; [|discriminate].
    intros H. injection H as <-. f_equal. exact (prefix_split _ _ Hp).
  - intros ->. cbn [falsy valueOf]. rewrite prefix_append.
    change 7%nat with (String.length "Bearer ").
    now rewrite substringFrom_append.
Qed.

Section MiddlewareFacts.

Variable verifyToken : string -> Outcome (option JwtPayload.t).

Lemma authenticateToken_accepts (req : AuthRequest.t) (token : string)
    (decoded : JwtPayload.t) :
  AuthRequest.authorization req = Some ("Bearer " ++ token) ->
  token <> "" ->
  verifyToken token = Resolved (Some decoded) ->
  authenticateToken verifyToken req = CallNext (AuthRequest.setUser decoded req).
Proof.
  intros Hh Hne Hv. unfold authenticateToken.
  apply bearerToken_spec in Hh. rewrite Hh. cbn [falsy valueOf].
  apply String.eqb_neq in Hne. now rewrite Hne, Hv.
Qed.

(** The only way through [authenticateToken]: [next()] is called exactly
    when the header is "Bearer " followed by a non-empty token for which
    [verifyToken] returns claims, and then with exactly those claims
    attached to the request. *)
Theorem authenticateToken_passes_iff (req req' : AuthRequest.t) :
  authenticateToken verifyToken req = CallNext req'
  <-> exists token decoded,
        AuthRequest.authorization req = Some ("Bearer " ++ token)
        /\ token <> ""
        /\ verifyToken token = Resolved (Some decoded)
        /\ req' = AuthRequest.setUser decoded req.
Proof.
  unfold authenticateToken. split.
  - destruct (bearerToken (AuthRequest.authorization req)) as [token|] eqn:Hb;
      [|discriminate].
    cbn [falsy valueOf]. destruct (token =? "") eqn:He; [discriminate|].
    destruct (verifyToken token) as [[decoded|]|] eqn:Hv; try discriminate.
    intros H. injection H as <-. exists token, decoded.
    repeat split; [now apply bearerToken_spec | now apply String.eqb_neq | exact Hv].
  - intros (token & decoded & Hh & Hne & Hv & ->).
    now apply authenticateToken_accepts with token.
Qed.

(** The three refusals of [authenticateToken]. Without a non-empty Bearer
    token (no header, another scheme, "Bearer " alone) the answer is 401
    "Access token is required" and [verifyToken] has no say; with one, it
    is 401 "Invalid or expired token" when [verifyToken] returns null and
    500 when it throws. *)
Theorem authenticateToken_refusals (req : AuthRequest.t) :
  ((forall token, token <> "" ->
      AuthRequest.authorization req <> Some ("Bearer " ++ token)) ->
   authenticateToken verifyToken req
   = Respond (unauthorized "Access token is required"))
  /\ (forall token,
        token <> "" ->
        AuthRequest.authorization req = Some ("Bearer " ++ token) ->
        (verifyToken token = Resolved None ->
         authenticateToken verifyToken req
         = Respond (unauthorized "Invalid or expired token"))
        /\ (verifyToken token = Rejected ->
            authenticateToken verifyToken req
            = Respond (internalError "Authentication failed"))).
Proof.
  unfold authenticateToken. split.
  - intros Hnone.
    destruct (bearerToken (AuthRequest.authorization req)) as [token|] eqn:Hb;
      [|reflexivity].
    cbn [falsy valueOf]. destruct (token =? "") eqn:He; [reflexivity|].
    exfalso. apply (Hnone token); [now apply String.eqb_neq | now apply bearerToken_spec].
  - intros token Hne Hh. apply bearerToken_spec in Hh. rewrite Hh.
    cbn [falsy valueOf]. apply String.eqb_neq in Hne. rewrite Hne.
    split; intros ->; reflexivity.
Qed.

(** [optionalAuthentication] never answers: it always calls [next()]. It
    attaches claims exactly when [authenticateToken] would let the request
    through, and the same ones; whenever [authenticateToken] would refuse,
    also when [verifyToken] throws, the request goes on as it came. *)
Theorem optionalAuthentication_agrees (req : AuthRequest.t) :
  (forall req', authenticateToken verifyToken req = CallNext req' ->
                optionalAuthentication verifyToken req = CallNext req')
  /\ (forall res, authenticateToken verifyToken req = Respond res ->
                  optionalAuthentication verifyToken req = CallNext req).
Proof.
  unfold authenticateToken, optionalAuthentication.
  destruct (falsy (bearerToken (AuthRequest.authorization req))); cbn [negb].
  - split; [discriminate | reflexivity].
  - destruct (verifyToken (valueOf (bearerToken (AuthRequest.authorization req))))
      as [[decoded|]|]; split; try discriminate; try reflexivity.
    intros req' H. injection H as <-. reflexivity.
Qed.

End MiddlewareFacts.

Section SessionUse.

Variable isValidStellarAddress : string -> bool.
Variable verifySignature : string -> string -> string -> bool.
Variable generateToken : string -> string -> string.
Variable verifyToken : string -> Outcome (option JwtPayload.t).

Local Abbreviation post_connect :=
  (post_connect isValidStellarAddress verifySignature generateToken).

(** From login to an authenticated request. When [POST /connect] answers
    200 with a token from which [verifyToken] reads back the claims it was
    generated from, a request that carries "Bearer <token>" passes
    [authenticateToken], and the identity attached to it is the stored
    user of the wallet that signed: same id, same address. *)
Theorem session_token_authenticates (env : ConnectEnv) (req : ConnectRequestBody.t)
    (db : DB) (token uid w : string) (created last : Z)
    (decoded : JwtPayload.t) (next : AuthRequest.t) :
  fst (post_connect env req db) = json 200 (ConnectResponse token uid w created last) ->
  token <> "" ->
  verifyToken token = Resolved (Some decoded) ->
  JwtPayload.userId decoded = uid ->
  JwtPayload.walletAddress decoded = w ->
  AuthRequest.authorization next = Some ("Bearer " ++ token) ->
  authenticateToken verifyToken next = CallNext (AuthRequest.setUser decoded next)
  /\ ConnectRequestBody.walletAddress req = Some (JwtPayload.walletAddress decoded)
  /\ exists u,
       find (prisma.hasWallet (JwtPayload.walletAddress decoded))
            (users (snd (post_connect env req db))) = Some u
       /\ User.id u = JwtPayload.userId decoded
       /\ User.walletAddress u = JwtPayload.walletAddress decoded.
Proof.
  intros Hres Hne Hv Huid Hw Hh.
  assert (H200 : status (fst (post_connect env req db)) = 200) by now rewrite Hres.
  destruct (post_connect_200 _ _ generateToken _ _ _ H200) as [c [Hacc Hsav]].
  rewrite (post_connect_accepted _ _ generateToken _ _ _ _ Hacc Hsav) in *.
  cbn [fst snd users] in *. injection Hres as _ Hid Hwallet _ _.
  destruct Hacc as (Hwf & _).
  unfold wellFormed in Hwf. apply andb_true_iff in Hwf. destruct Hwf as [Hpres _].
  apply negb_true_iff, orb_false_iff in Hpres. destruct Hpres as [Hpres _].
  apply orb_false_iff in Hpres. destruct Hpres as [Hpres _].
  split; [| split].
  - now apply authenticateToken_accepts with token.
  - rewrite Hw, <- Hwallet. now apply present_value.
  - exists (resolvedUser env (valueOf (ConnectRequestBody.walletAddress req)) db).
    rewrite Hw, <- Hwallet, Huid, <- Hid.
    split; [apply find_hasWallet_usersAfter|].
    split; [reflexivity | apply resolvedUser_walletAddress].
Qed.

End SessionUse.

(* ===================================================================== *)
(** * Further concrete runs *)
(* ===================================================================== *)

Lemma challenge_invalid_request_unchanged_witness :
  status (fst (Sample.post_challenge Sample.challengeEnv Demo.noWallet Sample.dbUsed))
  = 400
  /\ snd (Sample.post_challenge Sample.challengeEnv Demo.noWallet Sample.dbUsed)
     = Sample.dbUsed.
Proof.
  destruct (challenge_invalid_request_unchanged Sample.isValidStellarAddress (JS.fixedZone 0)
              Sample.challengeEnv Demo.noWallet Sample.dbUsed) as (H400 & _ & Hsame).
  - left. reflexivity.
  - split; [exact H400 | exact Hsame].
Defined.

Lemma issued_challenge_stored_witness :
  exists row,
    find (prisma.hasChallenge (AuthChallenge.challenge row))
         (authChallenges (snd (Sample.post_challenge Sample.challengeEnv
                                 Sample.challengeRequest Demo.emptyDb)))
    = Some row
    /\ AuthChallenge.expiresAt row = (Sample.issuedAt + 5 * 60 * 1000)%Z.
Proof.
  destruct (issued_challenge_stored Sample.isValidStellarAddress (JS.fixedZone 0)
              Sample.challengeEnv Sample.challengeRequest Demo.emptyDb)
    as (row & _ & Hfound & _ & _ & _ & Hfive & _).
  - by_computation.
  - exists row. split; [exact Hfound | apply Hfive; reflexivity].
Defined.

Lemma challenge_collision_rejected_witness :
  status (fst (Sample.post_challenge Sample.challengeEnv Sample.challengeRequest
                 Sample.db0)) = 500.
Proof.
  destruct (challenge_collision_rejected Sample.isValidStellarAddress (JS.fixedZone 0)
              Sample.challengeEnv Sample.challengeRequest Sample.db0)
    as (_ & Hiff & _).
  - reflexivity.
  - by_computation.
  - apply Hiff. by_computation.
Defined.

Lemma sample_ids_unique :
  NoDup (map AuthChallenge.id (authChallenges Sample.db0)).
Proof. repeat constructor. intros []. Defined.

Lemma unique_columns_preserved_witness :
  NoDup (map AuthChallenge.challenge
           (authChallenges
              (serve Sample.isValidStellarAddress Sample.verifySignature
                 Sample.generateToken (JS.fixedZone 0)
                 [ VerifyAndAuthenticate Sample.env1 Sample.request;
                   IssueChallenge Sample.challengeEnv Sample.challengeRequest ]
                 Sample.db0))).
Proof.
  apply (unique_columns_preserved Sample.isValidStellarAddress
           Sample.verifySignature Sample.generateToken (JS.fixedZone 0)).
  - exact sample_ids_unique.
  - exact sample_tokens_unique.
Defined.

Lemma concurrent_logins_one_user_per_wallet_witness :
  let final := Sample.interleave [0; 1; 0; 1; 0; 1; 0; 1; 0; 1; 0; 0]%nat
                 [ {| ex_env := Sample.env1; ex_task := AtStart Sample.request |};
                   {| ex_env := Sample.env2; ex_task := AtStart Demo.request2 |} ]
                 Demo.dbTwoChallenges in
  map responseStatus (fst final) = [Some 200; Some 500]
  /\ users (snd final) = [createdUser Sample.env1 Sample.walletA]
  /\ NoDup (map User.walletAddress (users (snd final))).
Proof.
  destruct (concurrent_logins_one_user_per_wallet Sample.isValidStellarAddress
              Sample.verifySignature Sample.generateToken) as [Hunique Hrace].
  destruct (Hrace Sample.env1 Sample.env2 Sample.request Demo.request2
              Demo.dbTwoChallenges Sample.challengeA Demo.challengeA2)
    as (Hstatus & Husers & _).
  - repeat split; by_computation.
  - repeat split; by_computation.
  - reflexivity.
  - reflexivity.
  - reflexivity.
  - split; [exact Hstatus | split; [exact Husers|]].
    apply Hunique. constructor.
Defined.

Lemma challenges_never_reset_witness :
  NoDup (map AuthChallenge.challenge
           (authChallenges
              (snd (Sample.interleave Sample.racing Sample.pool Sample.db0)))).
Proof.
  apply (challenges_never_reset Sample.isValidStellarAddress
           Sample.verifySignature Sample.generateToken).
  exact sample_tokens_unique.
Defined.

Lemma rejected_request_effects_witness :
  users (snd (Sample.post_connect Sample.env1 Demo.wrongSignature Sample.db0))
  = users Sample.db0.
Proof.
  apply (rejected_request_effects Sample.isValidStellarAddress
           Sample.verifySignature Sample.generateToken).
  right. by_computation.
Defined.

Lemma connect_succeeds_iff_witness :
  status (fst (Sample.post_connect Sample.env1 Sample.request Sample.db0)) = 200.
Proof.
  apply (connect_succeeds_iff Sample.isValidStellarAddress Sample.verifySignature
           Sample.generateToken).
  split; [by_computation|].
  exists Sample.challengeA. repeat split; by_computation.
Defined.

Lemma failed_user_creation_consumes_challenge_witness :
  status (fst (Sample.post_connect Sample.env1 Sample.request Demo.dbIdTaken)) = 500
  /\ status (fst (Sample.post_connect Sample.env2 Sample.request
                    (snd (Sample.post_connect Sample.env1 Sample.request
                            Demo.dbIdTaken)))) = 401.
Proof.
  destruct (failed_user_creation_consumes_challenge Sample.isValidStellarAddress
              Sample.verifySignature Sample.generateToken Sample.env1 Sample.env2
              Sample.request Demo.dbIdTaken Sample.challengeA)
    as (H500 & _ & _ & H401).
  - repeat split; by_computation.
  - by_computation.
  - split; [exact H500 | exact H401].
Defined.

Lemma success_frame_witness :
  In Sample.usedExpired
     (authChallenges (snd (Sample.post_connect Sample.env1 Sample.request Demo.dbTwo))).
Proof.
  destruct (success_frame Sample.isValidStellarAddress Sample.verifySignature
              Sample.generateToken Sample.env1 Sample.request Demo.dbTwo
              Sample.challengeA) as [Hiff _].
  - by_computation.
  - by_computation.
  - apply Hiff.
    + left. reflexivity.
    + vm_compute. discriminate.
    + intros (_ & _ & at_ & Hat & Hlt). vm_compute in Hat. injection Hat as <-.
      vm_compute in Hlt. discriminate Hlt.
Defined.

Lemma issued_challenge_valid_until_expiry_witness :
  (exists uid created,
     fst (Sample.post_connect Sample.envAtExpiry Sample.request
            (snd (Sample.post_challenge Sample.challengeEnv Sample.challengeRequest
                    Demo.emptyDb)))
     = json 200 (ConnectResponse (Sample.generateToken uid Sample.walletA) uid
                   Sample.walletA created (ne_now Sample.envAtExpiry)))
  /\ fst (Sample.post_connect Sample.envLate Sample.request
            (snd (Sample.post_challenge Sample.challengeEnv Sample.challengeRequest
                    Demo.emptyDb)))
     = authenticationError "Challenge has expired. Please request a new one."
  /\ getChallengeExpiry (JS.fixedZone 0) (ce_expiryNow Sample.challengeEnv)
     = (ce_expiryNow Sample.challengeEnv + 5 * 60 * 1000)%Z.
Proof.
  split; [| split].
  - destruct (issued_challenge_valid_until_expiry Sample.isValidStellarAddress
                Sample.verifySignature Sample.generateToken (JS.fixedZone 0)
                Sample.challengeEnv Sample.challengeRequest Demo.emptyDb
                Sample.envAtExpiry (Sample.sign Sample.walletA Sample.tokenA))
      as [Hin _].
    + by_computation.
    + vm_compute. discriminate.
    + by_computation.
    + apply Hin.
      * vm_compute. discriminate.
      * by_computation.
  - destruct (issued_challenge_valid_until_expiry Sample.isValidStellarAddress
                Sample.verifySignature Sample.generateToken (JS.fixedZone 0)
                Sample.challengeEnv Sample.challengeRequest Demo.emptyDb
                Sample.envLate (Sample.sign Sample.walletA Sample.tokenA))
      as (_ & Hlate & _).
    + by_computation.
    + vm_compute. discriminate.
    + by_computation.
    + apply Hlate. by_computation.
  - destruct (issued_challenge_valid_until_expiry Sample.isValidStellarAddress
                Sample.verifySignature Sample.generateToken (JS.fixedZone 0)
                Sample.challengeEnv Sample.challengeRequest Demo.emptyDb
                Sample.envLate (Sample.sign Sample.walletA Sample.tokenA))
      as (_ & _ & Hfive).
    + by_computation.
    + vm_compute. discriminate.
    + by_computation.
    + apply Hfive. reflexivity.
Defined.

Lemma challenge_validity_window_witness :
  isChallengeExpired (Sample.issuedAt + 300001)
    (getChallengeExpiry (JS.fixedZone 0) Sample.issuedAt) = true
  /\ isChallengeExpired (Sample.issuedAt + 300000)
       (getChallengeExpiry (JS.fixedZone 0) Sample.issuedAt) <> true
  /\ isChallengeExpired (Sample.issuedAt + 400000)
       (getChallengeExpiry (JS.fixedZone 0) Sample.issuedAt) = true.
Proof.
  destruct challenge_validity_window as (_ & Hstable & _ & Hlater).
  assert (Hexpired : isChallengeExpired (Sample.issuedAt + 300001)
                       (getChallengeExpiry (JS.fixedZone 0) Sample.issuedAt) = true).
  { apply (Hstable (JS.fixedZone 0) Sample.issuedAt); [reflexivity|].
    vm_compute. reflexivity. }
  split; [exact Hexpired | split].
  - intros Hexp.
    apply (Hstable (JS.fixedZone 0) Sample.issuedAt) in Hexp; [|reflexivity].
    vm_compute in Hexp. discriminate Hexp.
  - apply (Hlater _ (Sample.issuedAt + 300001)%Z); [exact Hexpired|].
    vm_compute. discriminate.
Defined.

Lemma challenge_token_determines_issuance_witness :
  generateChallenge Sample.issuedAt Sample.bytesA
  <> generateChallenge (Sample.issuedAt + 1) Sample.bytesA
  /\ generateChallenge Sample.issuedAt Sample.bytesA
     <> generateChallenge Sample.issuedAt Sample.bytesB.
Proof.
  split; intros Hsame; apply challenge_token_determines_issuance in Hsame;
    destruct Hsame as [Htime Hbytes].
  - vm_compute in Htime. discriminate Htime.
  - vm_compute in Hbytes. discriminate Hbytes.
Defined.

Lemma authenticateToken_passes_iff_witness :
  exists decoded,
    authenticateToken Demo.verifyToken
      (Demo.withHeader (Some ("Bearer " ++ Demo.sessionToken)))
    = CallNext (AuthRequest.setUser decoded
                  (Demo.withHeader (Some ("Bearer " ++ Demo.sessionToken))))
    /\ JwtPayload.walletAddress decoded = Sample.walletA.
Proof.
  eexists. split.
  - apply (authenticateToken_passes_iff Demo.verifyToken).
    exists Demo.sessionToken. eexists. split; [reflexivity|].
    split; [vm_compute; discriminate|]. split; [by_computation | reflexivity].
  - by_computation.
Defined.

Lemma authenticateToken_refusals_witness :
  authenticateToken Demo.verifyToken (Demo.withHeader None)
  = Respond (unauthorized "Access token is required")
  /\ authenticateToken Demo.verifyToken (Demo.withHeader (Some "Bearer boom"))
     = Respond (internalError "Authentication failed").
Proof.
  split.
  - apply (authenticateToken_refusals Demo.verifyToken (Demo.withHeader None)).
    intros token _. discriminate.
  - apply (authenticateToken_refusals Demo.verifyToken
             (Demo.withHeader (Some "Bearer boom")) ) with (token := "boom").
    + discriminate.
    + reflexivity.
    + reflexivity.
Defined.

Lemma optionalAuthentication_agrees_witness :
  optionalAuthentication Demo.verifyToken (Demo.withHeader (Some "Bearer boom"))
  = CallNext (Demo.withHeader (Some "Bearer boom")).
Proof.
  apply (optionalAuthentication_agrees Demo.verifyToken)
    with (res := internalError "Authentication failed").
  reflexivity.
Defined.

Lemma session_token_authenticates_witness :
  authenticateToken Demo.verifyToken
    (Demo.withHeader (Some ("Bearer " ++ Demo.sessionToken)))
  = CallNext (AuthRequest.setUser Demo.sessionClaims
                (Demo.withHeader (Some ("Bearer " ++ Demo.sessionToken))))
  /\ exists u,
       find (prisma.hasWallet Sample.walletA)
            (users (snd (Sample.post_connect Sample.env1 Sample.request Sample.db0)))
       = Some u
       /\ User.id u = "user-1".
Proof.
  destruct (session_token_authenticates Sample.isValidStellarAddress
              Sample.verifySignature Sample.generateToken Demo.verifyToken
              Sample.env1 Sample.request Sample.db0
              Demo.sessionToken "user-1" Sample.walletA
              (ne_createdAt Sample.env1) (ne_now Sample.env1) Demo.sessionClaims
              (Demo.withHeader (Some ("Bearer " ++ Demo.sessionToken))))
    as (Hpass & _ & u & Hfound & Hid & _).
  - by_computation.
  - vm_compute. discriminate.
  - by_computation.
  - reflexivity.
  - reflexivity.
  - reflexivity.
  - split; [exact Hpass|]. exists u. split; [exact Hfound | exact Hid].
Defined.
